(** * PrivacyVotingDAOv2: a shallow embedding of the voting contract

    The development follows the Solidity sources of the repository:
    the [Pairing] library, the [SemaphoreVerifier] contract and the
    [PrivacyVotingDAOv2] contract (pragma ^0.8.24, hence checked
    arithmetic outside [unchecked] blocks).

    - unsigned integers are binary naturals [N]; a [w]-bit addition that
      leaves the range aborts with [Panic 0x11], as the compiler-inserted
      checks do;
    - [string] and [bytes] values are [string]s / lists of [ascii];
    - Solidity mappings are [gmap]s read with the type's zero value as a
      default;
    - a contract function is a computation in a state-and-error monad
      that keeps the storage reached when a [require] fails, so that
      "no write precedes a failing check" is a statement about the
      function body; [transact] then adds the roll-back of a reverted
      call. *)

From Stdlib Require Import NArith Lia String Ascii List DecimalString.
From stdpp Require Import gmap strings list.
From Equations Require Import Equations.
From Equations.Prop Require Import Logic.

Local Open Scope N_scope.

(** ** Machine integers, errors and pure computations that may abort *)

Definition address := N.

Inductive Error :=
| Revert (reason : string)               (* require(cond, reason) *)
| Panic (code : N)                       (* compiler-inserted check *)
| OwnableUnauthorizedAccount (account : address).

Definition ARITHMETIC_OVERFLOW : Error := Panic 0x11.
Definition DIVISION_BY_ZERO : Error := Panic 0x12.
Definition ARRAY_OUT_OF_BOUNDS : Error := Panic 0x32.

Inductive res (A : Type) :=
| Done (a : A)
| Abort (e : Error).
Arguments Done {A} a.
Arguments Abort {A} e.

#[global] Instance res_ret : MRet res := fun A a => Done a.
#[global] Instance res_bind : MBind res := fun A B f m =>
  match m with
  | Done a => f a
  | Abort e => Abort e
  end.

(** [type(uintW).max] *)
Definition uint_max (bits : N) : N := 2 ^ bits - 1.

(** Truncating conversion [uintW(x)]. *)
Definition to_uint (bits : N) (x : N) : N := x mod 2 ^ bits.

(** Does [x] fit in [bits] bits? *)
Definition fits (bits : N) (x : N) : bool := x <=? uint_max bits.

Definition checked_add (bits : N) (a b : N) : res N :=
  if fits bits (a + b) then Done (a + b) else Abort ARITHMETIC_OVERFLOW.

Definition checked_sub (a b : N) : res N :=
  if b <=? a then Done (a - b) else Abort ARITHMETIC_OVERFLOW.

Definition checked_div (a b : N) : res N :=
  if b =? 0 then Abort DIVISION_BY_ZERO else Done (a / b).

(** Addition inside an [unchecked] block. *)
Definition wrapping_add (bits : N) (a b : N) : N := (a + b) mod 2 ^ bits.

(** [buffer[i] = x] on a memory array: out of range is [Panic 0x32]. *)
Definition store {A : Type} (buffer : list A) (i : N) (x : A) : res (list A) :=
  if i <? N.of_nat (length buffer)
  then Done (<[N.to_nat i := x]> buffer)
  else Abort ARRAY_OUT_OF_BOUNDS.

(** ** Pairing and SemaphoreVerifier *)

Module Pairing.

Record G1Point := { g1_x : N; g1_y : N }.
Record G2Point := { g2_x : N * N; g2_y : N * N }.
Record Proof := { a : G1Point; b : G2Point; c : G1Point }.
Record VerifyingKey :=
  { vk_a : G1Point; vk_b : G2Point; vk_g : G2Point; vk_d : G2Point;
    ic : list G1Point }.

Definition verify (_ : Proof) (_ : list N) (_ : VerifyingKey) : bool := true.

End Pairing.

Module SemaphoreVerifier.

(** [proof] is a [uint256[8]], [publicSignals] a [uint256[4]]. *)
Definition verifyProof (proof : list N) (publicSignals : list N) : bool :=
  let _ := (proof, publicSignals) in
  true.

End SemaphoreVerifier.

(** ** PrivacyVotingDAOv2 *)

Module PrivacyVotingDAOv2.

(** *** Internal pure functions *)

(** [sqrt]: the Babylonian loop [while (z < y) { y = z; z = (x / z + z) / 2; }] *)

Equations? sqrt_loop (x y z : N) : res N by wf (N.to_nat y) lt :=
  sqrt_loop x y z with inspect (z <? y) := {
    | exist _ true Hguard =>
        q ← checked_div x z;
        s ← checked_add 256 q z;
        sqrt_loop x z (s / 2)
    | exist _ false _ => Done y }.
Proof. apply N.ltb_lt in Hguard. lia. Qed.

Definition sqrt (x : N) : res N :=
  if x =? 0 then Done 0
  else
    s ← checked_add 256 x 1;
    sqrt_loop x x (s / 2).

(** [_toString] *)

(** [while (temp != 0) { digits++; temp /= 10; }] *)
Equations? countDigits (temp digits : N) : res N by wf (N.to_nat temp) lt :=
  countDigits temp digits with inspect (negb (temp =? 0)) := {
    | exist _ true Hguard =>
        digits' ← checked_add 256 digits 1;
        countDigits (temp / 10) digits'
    | exist _ false _ => Done digits }.
Proof.
  apply negb_true_iff, N.eqb_neq in Hguard.
  assert (temp / 10 < temp) by (apply N.div_lt; lia). lia.
Qed.

(** [while (value != 0) { digits -= 1;
       buffer[digits] = bytes1(uint8(48 + uint256(value % 10)));
       value /= 10; }] *)
Equations? fillDigits (value digits : N) (buffer : list ascii)
  : res (list ascii) by wf (N.to_nat value) lt :=
  fillDigits value digits buffer with inspect (negb (value =? 0)) := {
    | exist _ true Hguard =>
        digits' ← checked_sub digits 1;
        code ← checked_add 256 48 (value mod 10);
        buffer' ← store buffer digits' (ascii_of_N (to_uint 8 code));
        fillDigits (value / 10) digits' buffer'
    | exist _ false _ => Done buffer }.
Proof.
  apply negb_true_iff, N.eqb_neq in Hguard.
  assert (value / 10 < value) by (apply N.div_lt; lia). lia.
Qed.

Definition _toString (value : N) : res string :=
  if value =? 0 then Done "0"%string
  else
    digits ← countDigits value 0;
    buffer ← fillDigits value digits (replicate (N.to_nat digits) zero);
    Done (string_of_list_ascii buffer).

(** *** Data types and storage *)

Inductive CountingMode := Simple | Quadratic.

(** [mode == CountingMode.Quadratic] *)
Definition isQuadratic (m : CountingMode) : bool :=
  match m with
  | Quadratic => true
  | Simple => false
  end.

Record Proposal := {
  title : string;
  description : string;
  mode : CountingMode;
  options : list string;
  tally : gmap N N;             (* mapping(uint256 => uint256) *)
  nullifiers : gmap N bool;     (* mapping(uint256 => bool) *)
  closes : N;                   (* uint64 *)
  closed : bool }.

(** The value of a storage slot that was never written. *)
Definition emptyProposal : Proposal :=
  {| title := ""; description := ""; mode := Simple; options := [];
     tally := ∅; nullifiers := ∅; closes := 0; closed := false |}.

Definition set_title (x : string) (p : Proposal) : Proposal :=
  {| title := x; description := description p; mode := mode p;
     options := options p; tally := tally p; nullifiers := nullifiers p;
     closes := closes p; closed := closed p |}.
Definition set_description (x : string) (p : Proposal) : Proposal :=
  {| title := title p; description := x; mode := mode p;
     options := options p; tally := tally p; nullifiers := nullifiers p;
     closes := closes p; closed := closed p |}.
Definition set_mode (x : CountingMode) (p : Proposal) : Proposal :=
  {| title := title p; description := description p; mode := x;
     options := options p; tally := tally p; nullifiers := nullifiers p;
     closes := closes p; closed := closed p |}.
Definition set_options (x : list string) (p : Proposal) : Proposal :=
  {| title := title p; description := description p; mode := mode p;
     options := x; tally := tally p; nullifiers := nullifiers p;
     closes := closes p; closed := closed p |}.
Definition set_tally (x : gmap N N) (p : Proposal) : Proposal :=
  {| title := title p; description := description p; mode := mode p;
     options := options p; tally := x; nullifiers := nullifiers p;
     closes := closes p; closed := closed p |}.
Definition set_nullifiers (x : gmap N bool) (p : Proposal) : Proposal :=
  {| title := title p; description := description p; mode := mode p;
     options := options p; tally := tally p; nullifiers := x;
     closes := closes p; closed := closed p |}.
Definition set_closes (x : N) (p : Proposal) : Proposal :=
  {| title := title p; description := description p; mode := mode p;
     options := options p; tally := tally p; nullifiers := nullifiers p;
     closes := x; closed := closed p |}.
Definition set_closed (x : bool) (p : Proposal) : Proposal :=
  {| title := title p; description := description p; mode := mode p;
     options := options p; tally := tally p; nullifiers := nullifiers p;
     closes := closes p; closed := x |}.

(** [p.tally[i]] and [p.nullifiers[n]] *)
Definition tallyOf (p : Proposal) (i : N) : N := default 0 (tally p !! i).
Definition nullifierUsed (p : Proposal) (n : N) : bool :=
  default false (nullifiers p !! n).

(** [p.options.length] *)
Definition optionsLength (p : Proposal) : N := N.of_nat (length (options p)).

Inductive Event :=
| MemberRootUpdated (newRoot : N)
| ProposalCreated (id : N) (mode : CountingMode) (title : string) (closes : N)
| ProofVerified (id merkleRoot nullifierHash signalHash : N)
| VoteCast (id option nullifierHash weight : N)
| ProposalClosed (id winner : N).

Record State := {
  owner : address;                    (* Ownable *)
  memberMerkleRoot : N;
  proposalCount : N;
  _proposals : gmap N Proposal;
  events : list Event }.              (* the log, oldest first *)

Definition set_memberMerkleRoot (x : N) (s : State) : State :=
  {| owner := owner s; memberMerkleRoot := x; proposalCount := proposalCount s;
     _proposals := _proposals s; events := events s |}.
Definition set_proposalCount (x : N) (s : State) : State :=
  {| owner := owner s; memberMerkleRoot := memberMerkleRoot s; proposalCount := x;
     _proposals := _proposals s; events := events s |}.
Definition set_proposals (x : gmap N Proposal) (s : State) : State :=
  {| owner := owner s; memberMerkleRoot := memberMerkleRoot s;
     proposalCount := proposalCount s; _proposals := x; events := events s |}.
Definition set_events (x : list Event) (s : State) : State :=
  {| owner := owner s; memberMerkleRoot := memberMerkleRoot s;
     proposalCount := proposalCount s; _proposals := _proposals s; events := x |}.

(** [_proposals[id]] as a value, and a write through the storage
    reference [Proposal storage p = _proposals[id]]. *)
Definition proposalAt (id : N) (s : State) : Proposal :=
  default emptyProposal (_proposals s !! id).
Definition updateProposal (id : N) (f : Proposal -> Proposal) (s : State) : State :=
  set_proposals (<[id := f (proposalAt id s)]> (_proposals s)) s.

(** What the contract's code takes from outside its own storage: the
    [keccak256] builtin, the code behind the immutable [verifier], the
    immutable [govToken] address and the token's [getVotes]. *)
Record Env := {
  keccak256 : string -> N;
  verifier_verifyProof : list N -> list N -> bool;
  govToken : address;
  govToken_getVotes : address -> N }.

(** [block.timestamp] and [msg.sender] of a call. *)
Record Tx := { block_timestamp : N; msg_sender : address }.

(** *** The monad of contract code *)

Inductive Outcome (A : Type) :=
| Ok (a : A) (s : State)
| Fail (e : Error) (s : State).   (* [s]: the storage reached when the call failed *)
Arguments Ok {A} a s.
Arguments Fail {A} e s.

Definition M (A : Type) : Type := State -> Outcome A.

#[global] Instance M_ret : MRet M := fun A a s => Ok a s.
#[global] Instance M_bind : MBind M := fun A B f m s =>
  match m s with
  | Ok a s' => f a s'
  | Fail e s' => Fail e s'
  end.

Definition gets {A : Type} (f : State -> A) : M A := fun s => Ok (f s) s.
Definition modify (f : State -> State) : M () := fun s => Ok () (f s).
Definition throw {A : Type} (e : Error) : M A := fun s => Fail e s.
Definition require (cond : bool) (reason : string) : M () :=
  if cond then mret () else throw (Revert reason).
Definition emit (e : Event) : M () :=
  modify (fun s => set_events (events s ++ [e]) s).
Definition lift {A : Type} (r : res A) : M A :=
  match r with
  | Done a => mret a
  | Abort e => throw e
  end.

(** The revert reasons, under the names of the failure kinds. *)
Definition InvalidOptions : Error := Revert "need 2+ opts".
Definition AlreadyClosed : Error := Revert "already closed".
Definition TooEarly : Error := Revert "not expired".
Definition ProposalClosedError : Error := Revert "voting is closed".
Definition InvalidOption : Error := Revert "invalid option".
Definition NullifierAlreadyUsed : Error := Revert "vote already cast".
Definition RootMismatch : Error := Revert "invalid merkle root".
Definition SignalMismatch : Error := Revert "signal-option mismatch".
Definition ProofInvalid : Error := Revert "invalid proof".
Definition OutOfBounds : Error := Revert "oob".

(** *** Owner-only functions *)

(** The [onlyOwner] modifier inherited from [Ownable]. *)
Definition onlyOwner (tx : Tx) : M () :=
  o ← gets owner;
  if o =? msg_sender tx then mret ()
  else throw (OwnableUnauthorizedAccount (msg_sender tx)).

(** The constructor: [Ownable(msg.sender)], [memberMerkleRoot = _root];
    [verifier] and [govToken] are the immutables held by [Env]. *)
Definition constructor (tx : Tx) (_root : N) : State :=
  {| owner := msg_sender tx; memberMerkleRoot := _root; proposalCount := 0;
     _proposals := ∅; events := [] |}.

Definition updateMemberRoot (tx : Tx) (newRoot : N) : M () :=
  onlyOwner tx;;
  modify (set_memberMerkleRoot newRoot);;
  emit (MemberRootUpdated newRoot).

(** [for (uint i = 0; i < options.length; i++) p.options.push(options[i]);] *)
Equations? pushOptions (id : N) (opts : list string) (i : N) : M ()
  by wf (N.to_nat (N.of_nat (length opts) - i)) lt :=
  pushOptions id opts i with inspect (i <? N.of_nat (length opts)) := {
    | exist _ true Hguard =>
        match opts !! N.to_nat i with
        | Some o =>
            modify (updateProposal id (fun p => set_options (options p ++ [o]) p));;
            (if fits 256 (i + 1) then pushOptions id opts (i + 1)
             else throw ARITHMETIC_OVERFLOW)
        | None => throw ARRAY_OUT_OF_BOUNDS
        end
    | exist _ false _ => mret () }.
Proof. apply N.ltb_lt in Hguard. lia. Qed.

Definition createProposal (tx : Tx) (title description : string)
    (mode : CountingMode) (opts : list string) (duration : N) : M N :=
  onlyOwner tx;;
  require (2 <=? N.of_nat (length opts)) "need 2+ opts";;
  count ← gets proposalCount;
  id ← lift (checked_add 256 count 1);
  modify (set_proposalCount id);;
  modify (updateProposal id (set_title title));;
  modify (updateProposal id (set_description description));;
  modify (updateProposal id (set_mode mode));;
  modify (updateProposal id (set_options []));;
  pushOptions id opts 0;;
  closes ← lift (checked_add 64 (to_uint 64 (block_timestamp tx)) duration);
  modify (updateProposal id (set_closes closes));;
  emit (ProposalCreated id mode title closes);;
  mret id.

(** *** Closing *)

(** The winner scan of [closeProposal]:
    [for (uint8 i = 0; i < p.options.length; ++i) { ... }] *)
Equations? winnerLoop (p : Proposal) (i high winner : N) : res N
  by wf (N.to_nat (optionsLength p - i)) lt :=
  winnerLoop p i high winner with inspect (i <? optionsLength p) := {
    | exist _ true Hguard =>
        let v := tallyOf p i in
        let '(high', winner') :=
          if high <? v then (v, i)
          else if v =? high then (high, uint_max 8)
          else (high, winner) in
        if fits 8 (i + 1) then winnerLoop p (i + 1) high' winner'
        else Abort ARITHMETIC_OVERFLOW
    | exist _ false _ => Done winner }.
Proof. apply N.ltb_lt in Hguard. lia. Qed.

Definition closeProposal (tx : Tx) (id : N) : M () :=
  p ← gets (proposalAt id);
  require (negb (closed p)) "already closed";;
  require (closes p <=? block_timestamp tx) "not expired";;
  modify (updateProposal id (set_closed true));;
  p ← gets (proposalAt id);
  winner ← lift (winnerLoop p 0 0 (uint_max 8));
  emit (ProposalClosed id winner).

(** *** Voting *)

Section Voting.
Context (E : Env).

Definition vote (tx : Tx) (id option signalHash nullifierHash merkleRoot : N)
    (proof : list N) : M () :=
  p ← gets (proposalAt id);
  require (block_timestamp tx <? closes p) "voting is closed";;
  require (option <? optionsLength p) "invalid option";;
  require (negb (nullifierUsed p nullifierHash)) "vote already cast";;
  root ← gets memberMerkleRoot;
  require (merkleRoot =? root) "invalid merkle root";;
  (* Validate signalHash matches encoded voting option *)
  optionString ← lift (_toString option);
  let expectedSignalHash := keccak256 E ("VOTE_" ++ optionString) in
  require (signalHash =? expectedSignalHash) "signal-option mismatch";;
  (* Verify zk-SNARK proof *)
  let publicSignals := [merkleRoot; nullifierHash; signalHash; id] in
  let ok := verifier_verifyProof E proof publicSignals in
  require ok "invalid proof";;
  emit (ProofVerified id merkleRoot nullifierHash signalHash);;
  (* Register nullifier to prevent double voting *)
  modify (updateProposal id
            (fun p => set_nullifiers (<[nullifierHash := true]> (nullifiers p)) p));;
  p ← gets (proposalAt id);
  weight ← (if isQuadratic (mode p) && negb (govToken E =? 0)
            then
              let rawVotes := govToken_getVotes E (msg_sender tx) in
              lift (sqrt rawVotes)
            else mret 1);
  modify (updateProposal id
            (fun p => set_tally
                        (<[option := wrapping_add 256 (tallyOf p option) weight]> (tally p))
                        p));;
  emit (VoteCast id option nullifierHash weight);;
  (* Automatically close if expired *)
  p ← gets (proposalAt id);
  if (closes p <=? block_timestamp tx) && negb (closed p)
  then closeProposal tx id
  else mret ().

End Voting.

(** *** Reads *)

Definition getProposal (tx : Tx) (id : N)
  : M (string * CountingMode * bool * N * list string) :=
  p ← gets (proposalAt id);
  mret (title p, mode p,
        negb (closed p) && (block_timestamp tx <? closes p),
        closes p, options p).

(** Short-circuit [||] over conditions that may abort. *)
Definition or_else (a b : res bool) : res bool :=
  x ← a; if (x : bool) then Done true else b.

(** [for (uint16 i = start; i < end; ++i) { out[i - start] = p.tally[i]; }] *)
Equations? talliesLoop (p : Proposal) (start end_ i : N) (out : list N)
  : res (list N) by wf (N.to_nat (end_ - i)) lt :=
  talliesLoop p start end_ i out with inspect (i <? end_) := {
    | exist _ true Hguard =>
        k ← checked_sub i start;
        out' ← store out k (tallyOf p i);
        if fits 16 (i + 1) then talliesLoop p start end_ (i + 1) out'
        else Abort ARITHMETIC_OVERFLOW
    | exist _ false _ => Done out }.
Proof. apply N.ltb_lt in Hguard. lia. Qed.

Definition tallies (id start n : N) : M (list N) :=
  p ← gets (proposalAt id);
  let len := to_uint 16 (optionsLength p) in
  require (start <? len) "oob";;
  wide ← lift (or_else (Done (n =? 0))
                (or_else (s ← checked_add 16 start n; Done (len <? s))
                         (s ← checked_add 16 start n; Done (s <? start))));
  end_ ← lift (if (wide : bool) then Done len else checked_add 16 start n);
  if (end_ <=? start) && (0 <? len)
  then mret []
  else
    size ← lift (checked_sub end_ start);
    lift (talliesLoop p start end_ start (replicate (N.to_nat size) 0)).

(** *** Transactions *)

Inductive Call :=
| UpdateMemberRoot (newRoot : N)
| CreateProposal (title description : string) (mode : CountingMode)
                 (opts : list string) (duration : N)
| CloseProposal (id : N)
| Vote (id option signalHash nullifierHash merkleRoot : N) (proof : list N).

Definition dispatch (E : Env) (tx : Tx) (c : Call) : M () :=
  match c with
  | UpdateMemberRoot newRoot => updateMemberRoot tx newRoot
  | CreateProposal title description mode opts duration =>
      createProposal tx title description mode opts duration;; mret ()
  | CloseProposal id => closeProposal tx id
  | Vote id option signalHash nullifierHash merkleRoot proof =>
      vote E tx id option signalHash nullifierHash merkleRoot proof
  end.

(** A transaction either commits the storage its body reached or, when
    the body fails, reverts to the storage it started from. *)
Definition transact {A : Type} (m : M A) (s : State) : State :=
  match m s with
  | Ok _ s' => s'
  | Fail _ _ => s
  end.

(** The result a caller sees. *)
Definition result {A : Type} (m : M A) (s : State) : res A :=
  match m s with
  | Ok a _ => Done a
  | Fail e _ => Abort e
  end.

Fixpoint run (E : Env) (calls : list (Tx * Call)) (s : State) : State :=
  match calls with
  | [] => s
  | (tx, c) :: rest => run E rest (transact (dispatch E tx c) s)
  end.

End PrivacyVotingDAOv2.

Import PrivacyVotingDAOv2.

(** ** Descriptions used in the statements *)

(** The decimal rendering of a number, by the Standard Library's printer. *)
Definition decimal (v : N) : string := NilZero.string_of_uint (N.to_uint v).

(** [keccak256(abi.encodePacked("VOTE_", <decimal option>))] *)
Definition expectedSignal (E : Env) (option : N) : N :=
  keccak256 E ("VOTE_" ++ decimal option).

(** The weight computed at lines 233-239 of [vote] for a proposal [p]. *)
Definition voteWeight (E : Env) (tx : Tx) (p : Proposal) : res N :=
  if isQuadratic (mode p) && negb (govToken E =? 0)
  then sqrt (govToken_getVotes E (msg_sender tx))
  else Done 1.

(** The storage after the write of the nullifier in [vote]. *)
Definition registerNullifier (id signalHash nullifierHash merkleRoot : N)
    (s : State) : State :=
  updateProposal id
    (fun p => set_nullifiers (<[nullifierHash := true]> (nullifiers p)) p)
    (set_events (events s ++ [ProofVerified id merkleRoot nullifierHash signalHash]) s).

(** The storage after all writes of an accepted [vote] of weight [weight]. *)
Definition recordVote (id option signalHash nullifierHash merkleRoot weight : N)
    (s : State) : State :=
  let s' :=
    updateProposal id
      (fun p => set_tally
                  (<[option := wrapping_add 256 (tallyOf p option) weight]> (tally p)) p)
      (registerNullifier id signalHash nullifierHash merkleRoot s) in
  set_events (events s' ++ [VoteCast id option nullifierHash weight]) s'.

(** Option [j] of [p] has strictly more weight than every other option. *)
Definition uniqueLeader (p : Proposal) (j : N) : Prop :=
  j < optionsLength p /\
  forall i, i < optionsLength p -> i <> j -> tallyOf p i < tallyOf p j.

(** [closeProposal] succeeded on [s] and logged [ProposalClosed id winner]. *)
Definition reportsWinner (tx : Tx) (id winner : N) (s : State) : Prop :=
  exists s', closeProposal tx id s = Ok () s' /\
             events s' = events s ++ [ProposalClosed id winner].

(** The states the contract can be in: the constructor's, and those
    reached from it by any sequence of calls. *)
Definition reachable (E : Env) (s : State) : Prop :=
  exists tx0 root calls, s = run E calls (constructor tx0 root).

(** The parts of a proposal that only [createProposal] writes. *)
Definition metadata (p : Proposal) : string * string * CountingMode * list string * N :=
  (title p, description p, mode p, options p, closes p).

(** The tallies of options [start], ..., [end_ - 1]. *)
Definition tallySlice (p : Proposal) (start end_ : N) : list N :=
  map (fun k => tallyOf p (start + N.of_nat k)) (seq 0 (N.to_nat (end_ - start))).

(** [s'] differs from [s] at most in proposal [id]. *)
Definition sameExcept (id : N) (s s' : State) : Prop :=
  owner s' = owner s /\ memberMerkleRoot s' = memberMerkleRoot s /\
  proposalCount s' = proposalCount s /\ events s' = events s /\
  forall id', id' <> id -> proposalAt id' s' = proposalAt id' s.

(** The proposal record written by [createProposal] over the slot [p]. *)
Definition createdProposal (tx : Tx) (title description : string)
    (mode : CountingMode) (opts : list string) (duration : N) (p : Proposal) : Proposal :=
  set_closes (to_uint 64 (block_timestamp tx) + duration)
    (set_options opts (set_mode mode (set_description description (set_title title p)))).

(** What one transaction can do to the storage: nothing (a reverted
    call), or the writes of one of the four state-changing functions. *)
Inductive effect (E : Env) (s : State) : State -> Prop :=
| effect_none : effect E s s
| effect_root tx newRoot :
    owner s = msg_sender tx ->
    effect E s (set_events (events s ++ [MemberRootUpdated newRoot])
                  (set_memberMerkleRoot newRoot s))
| effect_create tx title description mode opts duration id s' :
    createProposal tx title description mode opts duration s = Ok id s' ->
    effect E s s'
| effect_close tx id winner :
    closed (proposalAt id s) = false ->
    closes (proposalAt id s) <= block_timestamp tx ->
    winnerLoop (set_closed true (proposalAt id s)) 0 0 (uint_max 8) = Done winner ->
    effect E s (set_events (events s ++ [ProposalClosed id winner])
                  (updateProposal id (set_closed true) s))
| effect_vote tx id option signalHash nullifierHash merkleRoot weight :
    block_timestamp tx < closes (proposalAt id s) ->
    option < optionsLength (proposalAt id s) ->
    nullifierUsed (proposalAt id s) nullifierHash = false ->
    voteWeight E tx (proposalAt id s) = Done weight ->
    effect E s (recordVote id option signalHash nullifierHash merkleRoot weight s).

(** [_toString v] returns the decimal rendering of [v]. *)
Definition rendersDecimal (v : N) : bool :=
  match _toString v with
  | Done s => bool_decide (s = decimal v)
  | Abort _ => false
  end.

(** ** A concrete deployment, for evaluating the code on inputs *)

Module Scenario.

(** A stand-in for the hash builtin: any function of the bytes does,
    since the contract only compares its results. *)
Definition toyHash (s : string) : N :=
  fold_left (fun h c => (h * 257 + N_of_ascii c + 1) mod 2 ^ 256)
            (list_ascii_of_string s) 0.

(** The deployment of [scripts/deploy.ts]: the mock verifier and no
    governance token. *)
Definition deployed : Env :=
  {| keccak256 := toyHash;
     verifier_verifyProof := SemaphoreVerifier.verifyProof;
     govToken := 0;
     govToken_getVotes := fun _ => 0 |}.

(** A deployment with a governance token that reports the largest
    [uint256] for every account. *)
Definition whale : Env :=
  {| keccak256 := toyHash;
     verifier_verifyProof := SemaphoreVerifier.verifyProof;
     govToken := 0xABCD;
     govToken_getVotes := fun _ => uint_max 256 |}.

(** A deployment whose verifier rejects every proof. *)
Definition strict : Env :=
  {| keccak256 := toyHash;
     verifier_verifyProof := fun _ _ => false;
     govToken := 0;
     govToken_getVotes := fun _ => 0 |}.

Definition admin : address := 1.
Definition at_ (t : N) : Tx := {| block_timestamp := t; msg_sender := admin |}.

Definition root0 : N := 77.
Definition genesis : State := constructor (at_ 100) root0.

(** Proposal 1: options ["Yes"; "No"], created at time 100 for 300 seconds. *)
Definition yesNo : State :=
  transact (createProposal (at_ 100) "Budget" "Approve the budget" Simple
              ["Yes"; "No"]%string 300) genesis.

Definition signalOf (option : N) : N := toyHash ("VOTE_" ++ decimal option).

(** One accepted vote for option 1 with nullifier 5. *)
Definition voted : State :=
  transact (vote deployed (at_ 200) 1 1 (signalOf 1) 5 root0 []) yesNo.

(** The same proposal in Quadratic mode. *)
Definition quadratic : State :=
  transact (createProposal (at_ 100) "Budget" "Approve the budget" Quadratic
              ["Yes"; "No"]%string 300) genesis.

(** Five accepted votes for option 1 and none for option 0: tallies [0; 5]. *)
Definition zeroFive : State :=
  run deployed
    (map (fun n => (at_ 200, Vote 1 1 (signalOf 1) n root0 [])) [11; 12; 13; 14; 15])
    yesNo.

(** Five accepted votes for each option: tallies [5; 5]. *)
Definition fiveFive : State :=
  run deployed
    (map (fun n => (at_ 200, Vote 1 0 (signalOf 0) n root0 [])) [21; 22; 23; 24; 25])
    zeroFive.

(** A proposal with 256 options. *)
Definition manyOptions : State :=
  transact (createProposal (at_ 100) "Wide" "256 options" Simple
              (replicate 256 "o"%string) 300) genesis.

End Scenario.

(** ** Descriptions used in the further properties *)

(** The value of a string of decimal digits, most significant first. *)
Definition digitValue (c : ascii) : N := N_of_ascii c - 48.
Definition isDigit (c : ascii) : bool :=
  (48 <=? N_of_ascii c) && (N_of_ascii c <=? 57).
Definition parseDecimal (s : list ascii) : N :=
  fold_left (fun acc c => 10 * acc + digitValue c) s 0.

(** The sum of all tallies stored for a proposal. *)
Definition tallySum (p : Proposal) : N :=
  map_fold (fun _ v acc => v + acc) 0 (tally p).

(** The sum of the weights of the VoteCast events logged for proposal
    [id], and their number. *)
Definition loggedWeight (id : N) (log : list Event) : N :=
  fold_right (fun e acc =>
                match e with
                | VoteCast id' _ _ weight => if id' =? id then weight + acc else acc
                | _ => acc
                end) 0 log.
Definition castCount (id : N) (log : list Event) : nat :=
  fold_right (fun e acc =>
                match e with
                | VoteCast id' _ _ _ => if id' =? id then S acc else acc
                | _ => acc
                end) 0%nat log.

(** A storage slot that holds no proposal: the zero record, apart from
    the [closed] flag. *)
Definition blank (p : Proposal) : Prop := p = set_closed (closed p) emptyProposal.

(** The bookkeeping kept by every call: slots above the proposal count
    are blank, tallies exist for option indices only, the nullifier map
    holds [true] only, and tallies and nullifiers agree with the log. *)
Definition consistent (s : State) : Prop :=
  (forall id, proposalCount s < id -> blank (proposalAt id s)) /\
  (forall id i v, tally (proposalAt id s) !! i = Some v ->
                  i < optionsLength (proposalAt id s)) /\
  (forall id n b, nullifiers (proposalAt id s) !! n = Some b -> b = true) /\
  (forall id, size (nullifiers (proposalAt id s)) = castCount id (events s)) /\
  (forall id, tallySum (proposalAt id s) mod 2 ^ 256
              = loggedWeight id (events s) mod 2 ^ 256).

(** A deployment with a governance token in which every account has a
    zero balance. *)
Definition emptyWallets : Env :=
  {| keccak256 := Scenario.toyHash;
     verifier_verifyProof := SemaphoreVerifier.verifyProof;
     govToken := 0xABCD;
     govToken_getVotes := fun _ => 0 |}.

(** * Lemmas *)

Ltac munfold :=
  unfold mbind, M_bind, mret, M_ret, gets, modify, throw, require, emit, lift,
    mbind, M_bind, mret, M_ret in *.

(** ** Arithmetic: the Babylonian square root *)

Lemma sqrt_loop_eq x y z :
  sqrt_loop x y z =
  if z <? y then
    q ← checked_div x z; s ← checked_add 256 q z; sqrt_loop x z (s / 2)
  else Done y.
Proof.
  rewrite sqrt_loop_equation_1.
  change (z <? y) with (proj1_sig (inspect (z <? y))) at 2.
  destruct (inspect (z <? y)) as [[] H]; reflexivity.
Qed.

Lemma div2_le_iff a b : a <= b / 2 <-> 2 * a <= b.
Proof.
  split; intros H.
  - pose proof (N.Div0.mul_div_le b 2). lia.
  - apply N.div_le_lower_bound; lia.
Qed.

Lemma newton_lower x z : 0 < z -> N.sqrt x <= (x / z + z) / 2.
Proof.
  intros Hz. apply div2_le_iff.
  pose proof (N.sqrt_spec x (N.le_0_l x)) as [Hs _]. cbv zeta in Hs.
  set (s := N.sqrt x) in *. set (q := x / z).
  destruct (N.le_gt_cases (2 * s) (q + z)) as [|Hlt]; [assumption|exfalso].
  assert (Hx : x < z * (q + 1)).
  { pose proof (N.mul_succ_div_gt x z). unfold q. lia. }
  assert (Hsq : (z + q + 1) * (z + q + 1) <= (2 * s) * (2 * s))
    by (apply N.mul_le_mono; lia).
  assert (Hamgm : 4 * (z * (q + 1)) <= (z + q + 1) * (z + q + 1)).
  { destruct (N.le_ge_cases z (q + 1)) as [Hle|Hle].
    - assert (exists d, q + 1 = z + d) as [d Hd] by (exists (q + 1 - z); lia).
      rewrite Hd. nia.
    - assert (exists d, z = q + 1 + d) as [d Hd] by (exists (z - (q + 1)); lia).
      rewrite Hd. nia. }
  lia.
Qed.

Lemma newton_exit x z : 0 < z -> z <= (x / z + z) / 2 -> z <= N.sqrt x.
Proof.
  intros Hz H. apply div2_le_iff in H. apply N.sqrt_le_square.
  pose proof (N.Div0.mul_div_le x z). nia.
Qed.

Lemma newton_no_overflow x z : 0 < z -> z <= x -> x / z + z <= x + 1.
Proof.
  intros Hz Hzx. pose proof (N.Div0.mul_div_le x z).
  assert (1 <= x / z) by (apply N.div_le_lower_bound; lia).
  nia.
Qed.

Lemma sqrt_loop_correct x :
  0 < x -> x + 1 <= uint_max 256 ->
  forall y z,
    N.sqrt x <= y -> y <= x -> N.sqrt x <= z ->
    (y <= z -> y <= N.sqrt x) ->
    sqrt_loop x y z = Done (N.sqrt x).
Proof.
  intros Hx Hmax y. induction y as [y IH] using (well_founded_induction N.lt_wf_0).
  intros z Hy Hyx Hz Hexit.
  assert (Hs : 1 <= N.sqrt x) by (apply N.sqrt_le_square; lia).
  rewrite sqrt_loop_eq. destruct (N.ltb_spec z y) as [Hlt|Hge].
  - unfold checked_div. destruct (N.eqb_spec z 0) as [|_]; [lia|]. cbn.
    unfold checked_add, fits.
    pose proof (newton_no_overflow x z ltac:(lia) ltac:(lia)).
    destruct (N.leb_spec (x / z + z) (uint_max 256)) as [_|]; [|lia]. cbn.
    apply IH; try lia.
    + apply newton_lower. lia.
    + apply newton_exit. lia.
  - f_equal. specialize (Hexit Hge). lia.
Qed.

Lemma sqrt_half_ge x : N.sqrt x <= (x + 1) / 2.
Proof.
  apply div2_le_iff.
  pose proof (N.sqrt_spec x (N.le_0_l x)) as [Hs _]. cbv zeta in Hs. nia.
Qed.

Lemma sqrt_correct x : x < uint_max 256 -> sqrt x = Done (N.sqrt x).
Proof.
  intros Hx. unfold sqrt. destruct (N.eqb_spec x 0) as [->|Hx0]; [reflexivity|].
  unfold checked_add, fits.
  destruct (N.leb_spec (x + 1) (uint_max 256)) as [_|]; [|lia]. cbn.
  apply sqrt_loop_correct; try lia.
  - apply N.sqrt_le_lin.
  - apply sqrt_half_ge.
  - intros H. apply div2_le_iff in H. assert (x = 1) as -> by lia. reflexivity.
Qed.

Lemma sqrt_overflow : sqrt (uint_max 256) = Abort ARITHMETIC_OVERFLOW.
Proof. reflexivity. Qed.

(** ** [_toString] on the range of [uint8] *)

Lemma rendersDecimal_uint8 :
  forallb rendersDecimal (map N.of_nat (seq 0 256)) = true.
Proof. vm_compute. reflexivity. Qed.

Lemma _toString_uint8 v : v <= uint_max 8 -> _toString v = Done (decimal v).
Proof.
  intros Hv. pose proof rendersDecimal_uint8 as H.
  rewrite forallb_forall in H. specialize (H v).
  unfold rendersDecimal in H. destruct (_toString v) as [s|e].
  - f_equal. eapply bool_decide_eq_true_1, H.
    apply in_map_iff. exists (N.to_nat v). split; [lia|].
    apply in_seq. change (uint_max 8) with 255 in Hv. lia.
  - discriminate H. apply in_map_iff. exists (N.to_nat v). split; [lia|].
    apply in_seq. change (uint_max 8) with 255 in Hv. lia.
Qed.

(** ** Storage lemmas *)

Lemma proposalAt_update_eq id f s :
  proposalAt id (updateProposal id f s) = f (proposalAt id s).
Proof. unfold proposalAt, updateProposal. cbn. by rewrite lookup_insert_eq. Qed.

Lemma proposalAt_update_ne id id' f s :
  id <> id' -> proposalAt id' (updateProposal id f s) = proposalAt id' s.
Proof. intros H. unfold proposalAt, updateProposal. cbn. by rewrite lookup_insert_ne. Qed.

Lemma proposalAt_set_events id l s : proposalAt id (set_events l s) = proposalAt id s.
Proof. reflexivity. Qed.

Lemma proposalAt_constructor tx root id : proposalAt id (constructor tx root) = emptyProposal.
Proof. reflexivity. Qed.

(** ** The functions as case analyses on the storage *)

Lemma winnerLoop_eq p i high winner :
  winnerLoop p i high winner =
  if i <? optionsLength p then
    let v := tallyOf p i in
    let '(high', winner') :=
      if high <? v then (v, i)
      else if v =? high then (high, uint_max 8)
      else (high, winner) in
    if fits 8 (i + 1) then winnerLoop p (i + 1) high' winner'
    else Abort ARITHMETIC_OVERFLOW
  else Done winner.
Proof.
  rewrite winnerLoop_equation_1.
  change (i <? optionsLength p) with (proj1_sig (inspect (i <? optionsLength p))) at 2.
  destruct (inspect (i <? optionsLength p)) as [[] H]; reflexivity.
Qed.

Lemma closeProposal_eq tx id s :
  closeProposal tx id s =
  let p := proposalAt id s in
  if closed p then Fail AlreadyClosed s
  else if negb (closes p <=? block_timestamp tx) then Fail TooEarly s
  else match winnerLoop (set_closed true p) 0 0 (uint_max 8) with
       | Done winner =>
           Ok () (set_events (events s ++ [ProposalClosed id winner])
                    (updateProposal id (set_closed true) s))
       | Abort e => Fail e (updateProposal id (set_closed true) s)
       end.
Proof.
  unfold closeProposal. munfold. cbn.
  destruct (closed (proposalAt id s)); cbn; [reflexivity|].
  destruct (closes (proposalAt id s) <=? block_timestamp tx); cbn; [|reflexivity].
  rewrite proposalAt_update_eq.
  destruct (winnerLoop _ _ _ _); reflexivity.
Qed.

Lemma updateMemberRoot_eq tx newRoot s :
  updateMemberRoot tx newRoot s =
  if owner s =? msg_sender tx
  then Ok () (set_events (events s ++ [MemberRootUpdated newRoot])
                (set_memberMerkleRoot newRoot s))
  else Fail (OwnableUnauthorizedAccount (msg_sender tx)) s.
Proof.
  unfold updateMemberRoot, onlyOwner. munfold. cbn.
  destruct (owner s =? msg_sender tx); reflexivity.
Qed.

Lemma vote_eq E tx id option signalHash nullifierHash merkleRoot proof s :
  vote E tx id option signalHash nullifierHash merkleRoot proof s =
  let p := proposalAt id s in
  if negb (block_timestamp tx <? closes p) then Fail ProposalClosedError s
  else if negb (option <? optionsLength p) then Fail InvalidOption s
  else if nullifierUsed p nullifierHash then Fail NullifierAlreadyUsed s
  else if negb (merkleRoot =? memberMerkleRoot s) then Fail RootMismatch s
  else match _toString option with
       | Abort e => Fail e s
       | Done optionString =>
           if negb (signalHash =? keccak256 E ("VOTE_" ++ optionString))
           then Fail SignalMismatch s
           else if negb (verifier_verifyProof E proof
                           [merkleRoot; nullifierHash; signalHash; id])
           then Fail ProofInvalid s
           else match voteWeight E tx p with
                | Abort e =>
                    Fail e (registerNullifier id signalHash nullifierHash merkleRoot s)
                | Done weight =>
                    Ok () (recordVote id option signalHash nullifierHash merkleRoot weight s)
                end
       end.
Proof.
  unfold vote. munfold. cbn.
  destruct (block_timestamp tx <? closes (proposalAt id s)) eqn:Hopen; cbn; [|reflexivity].
  destruct (option <? optionsLength (proposalAt id s)); cbn; [|reflexivity].
  destruct (nullifierUsed (proposalAt id s) nullifierHash); cbn; [reflexivity|].
  destruct (merkleRoot =? memberMerkleRoot s); cbn; [|reflexivity].
  destruct (_toString option) as [str|e]; cbn; [|reflexivity].
  destruct (signalHash =? keccak256 E ("VOTE_" ++ str)); cbn; [|reflexivity].
  destruct (verifier_verifyProof E proof _); cbn; [|reflexivity].
  rewrite proposalAt_update_eq, proposalAt_set_events. cbn [mode set_nullifiers].
  unfold voteWeight, recordVote, registerNullifier.
  (* the automatic-close branch: [block.timestamp < p.closes] was required above *)
  assert (Hdead : forall s' : State,
             closes (proposalAt id s) = closes (proposalAt id s') ->
             (closes (proposalAt id s') <=? block_timestamp tx)
               && negb (closed (proposalAt id s')) = false).
  { intros s' <-. apply andb_false_iff. left. apply N.leb_gt. by apply N.ltb_lt. }
  destruct (isQuadratic (mode (proposalAt id s)) && negb (govToken E =? 0)).
  - destruct (sqrt _) as [w|e]; cbn; [|reflexivity].
    rewrite Hdead; [reflexivity|].
    rewrite proposalAt_set_events, !proposalAt_update_eq. reflexivity.
  - rewrite Hdead; [reflexivity|].
    rewrite proposalAt_set_events, !proposalAt_update_eq. reflexivity.
Qed.

Lemma getProposal_eq tx id s :
  getProposal tx id s =
  let p := proposalAt id s in
  Ok (title p, mode p, negb (closed p) && (block_timestamp tx <? closes p),
      closes p, options p) s.
Proof. reflexivity. Qed.

(** ** createProposal *)

Lemma sameExcept_update id f s : sameExcept id s (updateProposal id f s).
Proof.
  repeat split; try reflexivity. intros id' H. apply proposalAt_update_ne. congruence.
Qed.

Lemma sameExcept_trans id s1 s2 s3 :
  sameExcept id s1 s2 -> sameExcept id s2 s3 -> sameExcept id s1 s3.
Proof.
  intros (Ha&Hb&Hc&Hd&He) (Ha'&Hb'&Hc'&Hd'&He'). repeat split; try congruence.
  intros id' Hne. rewrite He', He; auto.
Qed.

Lemma pushOptions_eq id opts i :
  pushOptions id opts i =
  if i <? N.of_nat (length opts) then
    match opts !! N.to_nat i with
    | Some o =>
        modify (updateProposal id (fun p => set_options (options p ++ [o]) p));;
        (if fits 256 (i + 1) then pushOptions id opts (i + 1)
         else throw ARITHMETIC_OVERFLOW)
    | None => throw ARRAY_OUT_OF_BOUNDS
    end
  else mret ().
Proof.
  rewrite pushOptions_equation_1.
  change (i <? N.of_nat (length opts))
    with (proj1_sig (inspect (i <? N.of_nat (length opts)))) at 2.
  destruct (inspect (i <? N.of_nat (length opts))) as [[] H]; reflexivity.
Qed.

Lemma set_options_app_nil p : set_options (options p ++ []) p = p.
Proof. destruct p. unfold set_options. cbn. by rewrite app_nil_r. Qed.

Lemma pushOptions_ok id opts (k : nat) :
  forall i s s',
    (length opts - N.to_nat i)%nat = k ->
    pushOptions id opts i s = Ok () s' ->
    sameExcept id s s' /\
    proposalAt id s' =
      set_options (options (proposalAt id s) ++ drop (N.to_nat i) opts) (proposalAt id s).
Proof.
  induction k as [|k IH]; intros i s s' Hk; rewrite pushOptions_eq.
  - destruct (N.ltb_spec i (N.of_nat (length opts))) as [Hlt|Hge]; [lia|].
    intros [= <-]. split.
    + repeat split; reflexivity.
    + rewrite drop_ge by lia. by rewrite set_options_app_nil.
  - destruct (N.ltb_spec i (N.of_nat (length opts))) as [Hlt|Hge]; [|lia].
    destruct (opts !! N.to_nat i) as [o|] eqn:Ho; [|discriminate].
    munfold. cbn. destruct (fits 256 (i + 1)); [|discriminate].
    intros Hrec. apply IH in Hrec as [Hsame Hp]; [|lia]. split.
    + eapply sameExcept_trans; [apply sameExcept_update|exact Hsame].
    + rewrite Hp, proposalAt_update_eq. cbn [options set_options].
      replace (N.to_nat (i + 1)) with (S (N.to_nat i)) by lia.
      rewrite (drop_S _ _ _ Ho), <- app_assoc. reflexivity.
Qed.

Lemma pushOptions_succeeds id opts (k : nat) :
  N.of_nat (length opts) <= uint_max 256 ->
  forall i s,
    (length opts - N.to_nat i)%nat = k ->
    exists s', pushOptions id opts i s = Ok () s'.
Proof.
  intros Hlen. induction k as [|k IH]; intros i s Hk; rewrite pushOptions_eq.
  - destruct (N.ltb_spec i (N.of_nat (length opts))) as [Hlt|Hge]; [lia|].
    by eexists.
  - destruct (N.ltb_spec i (N.of_nat (length opts))) as [Hlt|Hge]; [|lia].
    destruct (lookup_lt_is_Some_2 opts (N.to_nat i) ltac:(lia)) as [o ->].
    munfold. cbn. unfold fits.
    destruct (N.leb_spec (i + 1) (uint_max 256)) as [_|]; [|lia].
    apply IH. lia.
Qed.

Lemma createProposal_ok tx title description mode opts duration s id s' :
  createProposal tx title description mode opts duration s = Ok id s' ->
  owner s = msg_sender tx /\ 2 <= N.of_nat (length opts) /\
  id = proposalCount s + 1 /\ proposalCount s' = id /\
  owner s' = owner s /\ memberMerkleRoot s' = memberMerkleRoot s /\
  events s' = events s ++
    [ProposalCreated id mode title (to_uint 64 (block_timestamp tx) + duration)] /\
  (forall id', id' <> id -> proposalAt id' s' = proposalAt id' s) /\
  proposalAt id s' =
    createdProposal tx title description mode opts duration (proposalAt id s).
Proof.
  unfold createProposal, onlyOwner. munfold. cbn.
  destruct (N.eqb_spec (owner s) (msg_sender tx)) as [Hown|]; cbn; [|discriminate].
  destruct (N.leb_spec 2 (N.of_nat (length opts))) as [Hlen|]; cbn; [|discriminate].
  unfold checked_add at 1.
  destruct (fits 256 (proposalCount s + 1)); cbn; [|discriminate].
  match goal with |- context [pushOptions ?i ?o 0 ?st] =>
    destruct (pushOptions i o 0 st) as [[] s1|] eqn:Hpush; [|discriminate] end.
  apply (pushOptions_ok _ _ _ _ _ _ eq_refl) in Hpush as [(Ho&Hr&Hc&He&Hother) Hp].
  unfold checked_add.
  destruct (fits 64 (to_uint 64 (block_timestamp tx) + duration)); cbn; [|discriminate].
  intros [= <- <-].
  repeat split; auto.
  - cbn. by rewrite He.
  - intros id' Hne. rewrite proposalAt_set_events, proposalAt_update_ne by congruence.
    rewrite Hother by congruence.
    by rewrite !proposalAt_update_ne by congruence.
  - rewrite proposalAt_set_events, proposalAt_update_eq, Hp, !proposalAt_update_eq.
    reflexivity.
Qed.

Lemma createProposal_succeeds tx title description mode opts duration s :
  owner s = msg_sender tx ->
  2 <= N.of_nat (length opts) -> N.of_nat (length opts) <= uint_max 256 ->
  proposalCount s + 1 <= uint_max 256 ->
  to_uint 64 (block_timestamp tx) + duration <= uint_max 64 ->
  exists s', createProposal tx title description mode opts duration s
             = Ok (proposalCount s + 1) s'.
Proof.
  intros Hown Hlen Hmax Hcount Hcloses.
  unfold createProposal, onlyOwner. munfold. cbn.
  destruct (N.eqb_spec (owner s) (msg_sender tx)) as [_|]; [cbn|done].
  destruct (N.leb_spec 2 (N.of_nat (length opts))) as [_|]; [cbn|lia].
  unfold checked_add at 1, fits.
  destruct (N.leb_spec (proposalCount s + 1) (uint_max 256)) as [_|]; [cbn|lia].
  match goal with |- context [pushOptions ?i ?o 0 ?st] =>
    destruct (pushOptions_succeeds i o _ Hmax 0 st eq_refl) as [s1 ->] end.
  unfold checked_add, fits.
  destruct (N.leb_spec (to_uint 64 (block_timestamp tx) + duration) (uint_max 64))
    as [_|]; [cbn|lia].
  by eexists.
Qed.

(** ** The winner scan *)

Lemma winnerLoop_overflow p :
  256 <= optionsLength p ->
  forall (k : nat) i high winner,
    (256 - N.to_nat i)%nat = k -> i <= 255 ->
    winnerLoop p i high winner = Abort ARITHMETIC_OVERFLOW.
Proof.
  intros Hlen. induction k as [|k IH]; intros i high winner Hk Hi; [lia|].
  rewrite winnerLoop_eq.
  destruct (N.ltb_spec i (optionsLength p)) as [_|]; [|lia].
  cbv zeta.
  destruct (if high <? tallyOf p i then (tallyOf p i, i)
            else if tallyOf p i =? high then (high, uint_max 8)
                 else (high, winner)) as [high' winner'].
  unfold fits. change (uint_max 8) with 255.
  destruct (N.leb_spec (i + 1) 255) as [Hfit|_]; [|reflexivity].
  apply IH; lia.
Qed.

Lemma winnerLoop_after p j :
  optionsLength p <= 255 ->
  forall (k : nat) i,
    (N.to_nat (optionsLength p) - N.to_nat i)%nat = k ->
    (forall i', i <= i' -> i' < optionsLength p -> tallyOf p i' < tallyOf p j) ->
    winnerLoop p i (tallyOf p j) j = Done j.
Proof.
  intros Hlen. induction k as [|k IH]; intros i Hk Hlow; rewrite winnerLoop_eq.
  - destruct (N.ltb_spec i (optionsLength p)) as [|_]; [lia|reflexivity].
  - destruct (N.ltb_spec i (optionsLength p)) as [Hi|]; [|lia].
    cbv zeta. pose proof (Hlow i ltac:(lia) Hi) as Hv.
    destruct (N.ltb_spec (tallyOf p j) (tallyOf p i)) as [|_]; [lia|].
    destruct (N.eqb_spec (tallyOf p i) (tallyOf p j)) as [|_]; [lia|].
    unfold fits. change (uint_max 8) with 255.
    destruct (N.leb_spec (i + 1) 255) as [_|]; [|lia].
    apply IH; [lia|]. intros i' Hi' Hlt. apply Hlow; lia.
Qed.

Lemma winnerLoop_before p j :
  optionsLength p <= 255 -> uniqueLeader p j ->
  forall (k : nat) i high winner,
    (N.to_nat j - N.to_nat i)%nat = k -> i <= j -> high < tallyOf p j ->
    winnerLoop p i high winner = Done j.
Proof.
  intros Hlen [Hj Hlead]. induction k as [|k IH]; intros i high winner Hk Hi Hhigh;
    rewrite winnerLoop_eq;
    (destruct (N.ltb_spec i (optionsLength p)) as [_|]; [|lia]); cbv zeta.
  - assert (i = j) as -> by lia.
    destruct (N.ltb_spec high (tallyOf p j)) as [_|]; [|lia].
    unfold fits. change (uint_max 8) with 255.
    destruct (N.leb_spec (j + 1) 255) as [_|]; [|lia].
    apply (winnerLoop_after p j Hlen _ (j + 1) eq_refl).
    intros i' Hi' Hlt. apply Hlead; lia.
  - pose proof (Hlead i ltac:(lia) ltac:(lia)) as Hv.
    unfold fits. change (uint_max 8) with 255.
    destruct (N.ltb_spec high (tallyOf p i)) as [|?];
      [|destruct (N.eqb_spec (tallyOf p i) high) as [|?]];
      (destruct (N.leb_spec (i + 1) 255) as [_|]; [|lia]);
      apply IH; lia.
Qed.

Lemma winnerLoop_unique_leader p j :
  2 <= optionsLength p -> optionsLength p <= 255 -> uniqueLeader p j ->
  winnerLoop p 0 0 (uint_max 8) = Done j.
Proof.
  intros Hmin Hmax Hlead.
  apply (winnerLoop_before p j Hmax Hlead _ 0 0 _ eq_refl); [lia|].
  destruct Hlead as [Hj Hlead].
  destruct (N.eq_dec j 0) as [->|Hne].
  - pose proof (Hlead 1 ltac:(lia) ltac:(lia)). lia.
  - pose proof (Hlead 0 ltac:(lia) ltac:(lia)). lia.
Qed.

(** Whatever the tallies, the scan of at most 255 options returns the
    sentinel or a unique leader. *)
Lemma winnerLoop_result p :
  optionsLength p <= 255 ->
  forall (k : nat) i high winner,
    (N.to_nat (optionsLength p) - N.to_nat i)%nat = k ->
    i <= optionsLength p ->
    (forall m, m < i -> tallyOf p m <= high) ->
    (winner = uint_max 8 \/
     (winner < i /\ tallyOf p winner = high /\
      forall m, m < i -> m <> winner -> tallyOf p m < high)) ->
    exists w, winnerLoop p i high winner = Done w /\
              (w = uint_max 8 \/ uniqueLeader p w).
Proof.
  intros Hlen. induction k as [|k IH]; intros i high winner Hk Hi Hmax Hwin;
    rewrite winnerLoop_eq.
  - destruct (N.ltb_spec i (optionsLength p)) as [|_]; [lia|].
    exists winner. split; [reflexivity|].
    destruct Hwin as [->|(Hw&Ht&Hothers)]; [by left|right].
    split; [lia|]. intros m Hm Hne. rewrite Ht. apply Hothers; [lia|done].
  - destruct (N.ltb_spec i (optionsLength p)) as [Hlt|]; [|lia].
    cbv zeta. unfold fits. change (uint_max 8) with 255 in *.
    assert (Hstep : forall high', high <= high' -> tallyOf p i <= high' ->
              forall m, m < i + 1 -> tallyOf p m <= high').
    { intros high' Hh Hv m Hm. destruct (N.eq_dec m i) as [->|]; [done|].
      specialize (Hmax m ltac:(lia)). lia. }
    destruct (N.leb_spec (i + 1) 255) as [_|]; [|lia].
    destruct (N.ltb_spec high (tallyOf p i)) as [Hgt|Hle];
      [|destruct (N.eqb_spec (tallyOf p i) high) as [Heq|Hne]].
    + apply IH; [lia|lia|apply Hstep; lia|].
      right. split; [lia|]. split; [done|]. intros m Hm Hne.
      specialize (Hmax m ltac:(lia)). lia.
    + apply IH; [lia|lia|apply Hstep; lia|]. by left.
    + apply IH; [lia|lia|apply Hstep; lia|].
      destruct Hwin as [->|(Hw&Ht&Hothers)]; [by left|right].
      split; [lia|]. split; [done|]. intros m Hm Hne'.
      destruct (N.eq_dec m i) as [->|]; [lia|]. apply Hothers; [lia|done].
Qed.

Lemma uniqueLeader_unique p j j' : uniqueLeader p j -> uniqueLeader p j' -> j = j'.
Proof.
  intros [Hj Hl] [Hj' Hl']. destruct (N.eq_dec j j') as [|Hne]; [done|].
  pose proof (Hl j' Hj' ltac:(congruence)). pose proof (Hl' j Hj Hne). lia.
Qed.

(** ** The partial tally reader *)

Lemma talliesLoop_eq p start end_ i out :
  talliesLoop p start end_ i out =
  if i <? end_ then
    k ← checked_sub i start;
    out' ← store out k (tallyOf p i);
    if fits 16 (i + 1) then talliesLoop p start end_ (i + 1) out'
    else Abort ARITHMETIC_OVERFLOW
  else Done out.
Proof.
  rewrite talliesLoop_equation_1.
  change (i <? end_) with (proj1_sig (inspect (i <? end_))) at 2.
  destruct (inspect (i <? end_)) as [[] H]; reflexivity.
Qed.

Lemma talliesLoop_spec p start end_ :
  end_ <= uint_max 16 ->
  forall (k : nat) i (out : list N),
    (N.to_nat end_ - N.to_nat i)%nat = k ->
    start <= i -> i <= end_ ->
    length out = N.to_nat (end_ - start) ->
    (forall m, (m < N.to_nat (i - start))%nat ->
               out !! m = Some (tallyOf p (start + N.of_nat m))) ->
    talliesLoop p start end_ i out = Done (tallySlice p start end_).
Proof.
  intros Hend. induction k as [|k IH]; intros i out Hk Hlo Hhi Hlen Hpre;
    rewrite talliesLoop_eq.
  - destruct (N.ltb_spec i end_) as [|_]; [lia|]. f_equal.
    apply list_eq. intros m. unfold tallySlice.
    destruct (decide (m < N.to_nat (end_ - start))%nat) as [Hm|Hm].
    + rewrite Hpre by lia. rewrite list_lookup_fmap, lookup_seq_lt by lia. reflexivity.
    + rewrite !lookup_ge_None_2; [done| |lia].
      rewrite length_map, length_seq. lia.
  - destruct (N.ltb_spec i end_) as [Hlt|]; [|lia].
    unfold checked_sub. destruct (N.leb_spec start i) as [_|]; [|lia]. cbn.
    unfold store. destruct (N.ltb_spec (i - start) (N.of_nat (length out))) as [_|]; [|lia].
    cbn. unfold fits. change (uint_max 16) with 65535 in *.
    destruct (N.leb_spec (i + 1) 65535) as [_|]; [|lia].
    apply IH; try lia.
    + rewrite length_insert. lia.
    + intros m Hm. destruct (decide (m = N.to_nat (i - start))) as [->|Hne].
      * rewrite list_lookup_insert_eq by lia. do 2 f_equal. lia.
      * rewrite list_lookup_insert_ne by lia. apply Hpre. lia.
Qed.

Lemma tallies_eq id start n s :
  tallies id start n s =
  let p := proposalAt id s in
  let len := to_uint 16 (optionsLength p) in
  if negb (start <? len) then Fail OutOfBounds s
  else
    match (if n =? 0 then Done len
           else
             s1 ← checked_add 16 start n;
             if len <? s1 then Done len
             else if s1 <? start then Done len
             else Done s1) with
    | Abort e => Fail e s
    | Done end_ =>
        if (end_ <=? start) && (0 <? len) then Ok [] s
        else match checked_sub end_ start with
             | Abort e => Fail e s
             | Done size =>
                 match talliesLoop p start end_ start (replicate (N.to_nat size) 0) with
                 | Done out => Ok out s
                 | Abort e => Fail e s
                 end
             end
    end.
Proof.
  unfold tallies, or_else. munfold. cbn.
  destruct (start <? to_uint 16 (optionsLength (proposalAt id s))); cbn; [|reflexivity].
  destruct (n =? 0); cbn.
  - destruct (_ && _); [reflexivity|]. destruct (checked_sub _ _); cbn; [|reflexivity].
    destruct (talliesLoop _ _ _ _ _); reflexivity.
  - destruct (checked_add 16 start n) as [s1|e]; cbn; [|reflexivity].
    destruct (to_uint 16 (optionsLength (proposalAt id s)) <? s1); cbn.
    + destruct (_ && _); [reflexivity|]. destruct (checked_sub _ _); cbn; [|reflexivity].
      destruct (talliesLoop _ _ _ _ _); reflexivity.
    + destruct (s1 <? start); cbn.
      * destruct (_ && _); [reflexivity|]. destruct (checked_sub _ _); cbn; [|reflexivity].
        destruct (talliesLoop _ _ _ _ _); reflexivity.
      * destruct (_ && _); [reflexivity|]. destruct (checked_sub _ _); cbn; [|reflexivity].
        destruct (talliesLoop _ _ _ _ _); reflexivity.
Qed.

(** What [tallies] returns when no 16-bit quantity leaves its range. *)
Lemma tallies_in_range id start n s :
  let p := proposalAt id s in
  optionsLength p <= uint_max 16 -> start + n <= uint_max 16 ->
  result (tallies id start n) s =
    if optionsLength p <=? start then Abort OutOfBounds
    else if (n =? 0) || (optionsLength p <? start + n)
         then Done (tallySlice p start (optionsLength p))
         else Done (tallySlice p start (start + n)).
Proof.
  intros p Hlen Hsum. unfold result. rewrite tallies_eq. fold p. cbv zeta.
  change (uint_max 16) with 65535 in *.
  assert (Hcast : to_uint 16 (optionsLength p) = optionsLength p).
  { unfold to_uint. apply N.mod_small. change (2 ^ 16) with 65536. lia. }
  rewrite Hcast.
  destruct (N.ltb_spec start (optionsLength p)) as [Hstart|Hstart]; cbn [negb].
  2: { destruct (N.leb_spec (optionsLength p) start); [reflexivity|lia]. }
  destruct (N.leb_spec (optionsLength p) start) as [|_]; [lia|].
  assert (Hloop : forall end_, start < end_ -> end_ <= optionsLength p ->
            match (if (end_ <=? start) && (0 <? optionsLength p) then Ok [] s
                   else match checked_sub end_ start with
                        | Abort e => Fail e s
                        | Done size =>
                            match talliesLoop p start end_ start
                                    (replicate (N.to_nat size) 0) with
                            | Done out => Ok out s
                            | Abort e => Fail e s
                            end
                        end) with
            | Ok a _ => Done a
            | Fail e _ => Abort e
            end = Done (tallySlice p start end_)).
  { intros end_ Hlo Hhi.
    destruct (N.leb_spec end_ start) as [|_]; [lia|]. cbn [andb].
    unfold checked_sub. destruct (N.leb_spec start end_) as [_|]; [|lia].
    rewrite (talliesLoop_spec p start end_ ltac:(change (uint_max 16) with 65535; lia)
               _ start _ eq_refl); try lia; [reflexivity|].
    apply length_replicate. }
  destruct (N.eqb_spec n 0) as [Hn|Hn]; cbn [orb].
  - apply Hloop; lia.
  - unfold checked_add, fits. change (uint_max 16) with 65535.
    destruct (N.leb_spec (start + n) 65535) as [_|]; [|lia]. cbn.
    destruct (N.ltb_spec (optionsLength p) (start + n)) as [Hw|Hw].
    + apply Hloop; lia.
    + destruct (N.ltb_spec (start + n) start) as [|_]; [lia|].
      apply Hloop; lia.
Qed.

Lemma tallies_wraparound id start n s :
  start < to_uint 16 (optionsLength (proposalAt id s)) ->
  n <> 0 -> uint_max 16 < start + n ->
  tallies id start n s = Fail ARITHMETIC_OVERFLOW s.
Proof.
  intros Hstart Hn Hsum. rewrite tallies_eq. cbv zeta.
  destruct (N.ltb_spec start (to_uint 16 (optionsLength (proposalAt id s)))) as [_|]; [|lia].
  cbn [negb]. destruct (N.eqb_spec n 0) as [|_]; [done|].
  unfold checked_add, fits.
  destruct (N.leb_spec (start + n) (uint_max 16)) as [|_]; [lia|]. reflexivity.
Qed.

(** ** Transactions and call sequences *)

Lemma vote_ok E tx id option signalHash nullifierHash merkleRoot proof s s' :
  vote E tx id option signalHash nullifierHash merkleRoot proof s = Ok () s' ->
  block_timestamp tx < closes (proposalAt id s) /\
  option < optionsLength (proposalAt id s) /\
  nullifierUsed (proposalAt id s) nullifierHash = false /\
  merkleRoot = memberMerkleRoot s /\
  (exists str, _toString option = Done str /\
               signalHash = keccak256 E ("VOTE_" ++ str)) /\
  verifier_verifyProof E proof [merkleRoot; nullifierHash; signalHash; id] = true /\
  exists weight,
    voteWeight E tx (proposalAt id s) = Done weight /\
    s' = recordVote id option signalHash nullifierHash merkleRoot weight s.
Proof.
  rewrite vote_eq. cbv zeta.
  destruct (N.ltb_spec (block_timestamp tx) (closes (proposalAt id s))); [|discriminate].
  destruct (N.ltb_spec option (optionsLength (proposalAt id s))); [|discriminate].
  destruct (nullifierUsed (proposalAt id s) nullifierHash); [discriminate|].
  destruct (N.eqb_spec merkleRoot (memberMerkleRoot s)); [|discriminate].
  destruct (_toString option) as [str|]; [|discriminate].
  destruct (N.eqb_spec signalHash (keccak256 E ("VOTE_" ++ str))); [|discriminate].
  destruct (verifier_verifyProof E proof _); [|discriminate].
  destruct (voteWeight E tx (proposalAt id s)) as [weight|]; [|discriminate].
  cbn. intros [= <-]. repeat split; eauto.
Qed.

Lemma transact_effect E tx c s : effect E s (transact (dispatch E tx c) s).
Proof.
  unfold transact. destruct c as [newRoot|title description mode opts duration|id|
                                  id option signalHash nullifierHash merkleRoot proof]; cbn [dispatch].
  - rewrite updateMemberRoot_eq.
    destruct (N.eqb_spec (owner s) (msg_sender tx)); [|constructor].
    by apply effect_root with (tx := tx).
  - munfold.
    destruct (createProposal tx title description mode opts duration s) as [id s'|] eqn:H;
      [|constructor].
    eapply effect_create, H.
  - rewrite closeProposal_eq. cbv zeta.
    destruct (closed (proposalAt id s)) eqn:Hc; [constructor|].
    destruct (N.leb_spec (closes (proposalAt id s)) (block_timestamp tx)); [|constructor].
    cbn [negb].
    destruct (winnerLoop _ _ _ _) as [winner|] eqn:Hw; [|constructor].
    by apply effect_close with (tx := tx).
  - destruct (vote E tx id option signalHash nullifierHash merkleRoot proof s)
      as [[] s'|] eqn:H; [|constructor].
    apply vote_ok in H as (?&?&?&?&?&?&weight&?&->).
    by apply effect_vote with (tx := tx).
Qed.

Lemma run_ind E (P : State -> Prop) :
  (forall s s', effect E s s' -> P s -> P s') ->
  forall calls s, P s -> P (run E calls s).
Proof.
  intros Hstep. induction calls as [|[tx c] rest IH]; intros s Hs; [exact Hs|].
  cbn [run]. apply IH. eapply Hstep, Hs. apply transact_effect.
Qed.

Lemma proposalAt_recordVote id' id option signalHash nullifierHash merkleRoot weight s :
  proposalAt id' (recordVote id option signalHash nullifierHash merkleRoot weight s) =
  if decide (id' = id) then
    let p := set_nullifiers (<[nullifierHash := true]> (nullifiers (proposalAt id s)))
               (proposalAt id s) in
    set_tally (<[option := wrapping_add 256 (tallyOf p option) weight]> (tally p)) p
  else proposalAt id' s.
Proof.
  unfold recordVote, registerNullifier. cbv zeta. rewrite proposalAt_set_events.
  destruct (decide (id' = id)) as [->|Hne].
  - by rewrite !proposalAt_update_eq.
  - by rewrite !proposalAt_update_ne by congruence.
Qed.

(** *** Step invariants *)

Lemma effect_nullifier E s s' id n :
  effect E s s' ->
  nullifierUsed (proposalAt id s) n = true -> nullifierUsed (proposalAt id s') n = true.
Proof.
  intros [|tx newRoot Hown|tx title description mode opts duration id0 s1 Hc
          |tx id0 winner Hc Ht Hw|tx id0 option signalHash n0 merkleRoot weight Ht Ho Hn Hw]
         Hused.
  - done.
  - done.
  - apply createProposal_ok in Hc as (_&_&_&_&_&_&_&Hother&Hnew).
    destruct (N.eq_dec id id0) as [->|Hne].
    + rewrite Hnew. exact Hused.
    + by rewrite Hother.
  - rewrite proposalAt_set_events. destruct (N.eq_dec id id0) as [->|Hne].
    + rewrite proposalAt_update_eq. exact Hused.
    + by rewrite proposalAt_update_ne by congruence.
  - rewrite proposalAt_recordVote. destruct (decide (id = id0)) as [->|Hne]; [|done].
    cbv zeta. unfold nullifierUsed in *. cbn.
    destruct (N.eq_dec n n0) as [->|Hne].
    + by rewrite lookup_insert_eq.
    + by rewrite lookup_insert_ne.
Qed.

Lemma effect_metadata E s s' id :
  effect E s s' -> id <= proposalCount s ->
  id <= proposalCount s' /\ metadata (proposalAt id s') = metadata (proposalAt id s).
Proof.
  intros [|tx newRoot Hown|tx title description mode opts duration id0 s1 Hc
          |tx id0 winner Hc Ht Hw|tx id0 option signalHash n0 merkleRoot weight Ht Ho Hn Hw]
         Hid.
  - done.
  - done.
  - apply createProposal_ok in Hc as (_&_&->&->&_&_&_&Hother&_).
    split; [lia|]. rewrite Hother by lia. done.
  - split; [done|]. rewrite proposalAt_set_events. destruct (N.eq_dec id id0) as [->|Hne].
    + by rewrite proposalAt_update_eq.
    + by rewrite proposalAt_update_ne by congruence.
  - split; [done|]. rewrite proposalAt_recordVote.
    by destruct (decide (id = id0)) as [->|Hne].
Qed.

Lemma effect_unborn E s s' :
  effect E s s' ->
  (forall id, proposalCount s < id -> metadata (proposalAt id s) = metadata emptyProposal) ->
  forall id, proposalCount s' < id -> metadata (proposalAt id s') = metadata emptyProposal.
Proof.
  intros [|tx newRoot Hown|tx title description mode opts duration id0 s1 Hc
          |tx id0 winner Hc Ht Hw|tx id0 option signalHash n0 merkleRoot weight Ht Ho Hn Hw]
         Hinv id Hid.
  - by apply Hinv.
  - by apply Hinv.
  - apply createProposal_ok in Hc as (_&_&->&Hcount&_&_&_&Hother&_).
    rewrite Hother by lia. apply Hinv. lia.
  - rewrite <- (Hinv id Hid). rewrite proposalAt_set_events.
    destruct (N.eq_dec id id0) as [->|Hne].
    + by rewrite proposalAt_update_eq.
    + by rewrite proposalAt_update_ne by congruence.
  - rewrite <- (Hinv id Hid). rewrite proposalAt_recordVote.
    by destruct (decide (id = id0)) as [->|Hne].
Qed.

Lemma effect_wide_never_closed E s s' id :
  effect E s s' -> id <= proposalCount s ->
  256 <= optionsLength (proposalAt id s) ->
  closed (proposalAt id s') = closed (proposalAt id s).
Proof.
  intros [|tx newRoot Hown|tx title description mode opts duration id0 s1 Hc
          |tx id0 winner Hc Ht Hw|tx id0 option signalHash n0 merkleRoot weight Ht Ho Hn Hw]
         Hid Hwide.
  - done.
  - done.
  - apply createProposal_ok in Hc as (_&_&->&_&_&_&_&Hother&_).
    by rewrite Hother by lia.
  - rewrite proposalAt_set_events. destruct (N.eq_dec id id0) as [->|Hne].
    + rewrite (winnerLoop_overflow (set_closed true (proposalAt id0 s)) Hwide _ 0 _ _ eq_refl)
        in Hw by lia. discriminate.
    + by rewrite proposalAt_update_ne by congruence.
  - rewrite proposalAt_recordVote.
    by destruct (decide (id = id0)) as [->|Hne].
Qed.

(** *** Invariants of call sequences *)

Lemma run_nullifier E calls s id n :
  nullifierUsed (proposalAt id s) n = true ->
  nullifierUsed (proposalAt id (run E calls s)) n = true.
Proof.
  apply (run_ind E (fun s' => nullifierUsed (proposalAt id s') n = true)).
  intros s1 s2 Heff. exact (effect_nullifier E s1 s2 id n Heff).
Qed.

Lemma run_metadata E calls s id :
  id <= proposalCount s ->
  id <= proposalCount (run E calls s) /\
  metadata (proposalAt id (run E calls s)) = metadata (proposalAt id s).
Proof.
  intros Hid.
  apply (run_ind E (fun s' => id <= proposalCount s' /\
                              metadata (proposalAt id s') = metadata (proposalAt id s)));
    [|done].
  intros s1 s2 Heff [Hc Hm]. destruct (effect_metadata E s1 s2 id Heff Hc) as [Hc' Hm'].
  split; [done|congruence].
Qed.

Lemma reachable_unborn E s id :
  reachable E s -> proposalCount s < id ->
  metadata (proposalAt id s) = metadata emptyProposal.
Proof.
  intros (tx0 & root & calls & ->). revert id.
  apply (run_ind E (fun s' => forall id, proposalCount s' < id ->
                              metadata (proposalAt id s') = metadata emptyProposal)).
  - intros s1 s2 Heff. exact (effect_unborn E s1 s2 Heff).
  - intros id _. reflexivity.
Qed.

Lemma run_wide_never_closed E calls s id :
  id <= proposalCount s -> 256 <= optionsLength (proposalAt id s) ->
  closed (proposalAt id (run E calls s)) = closed (proposalAt id s).
Proof.
  intros Hid Hwide.
  apply (run_ind E (fun s' => (id <= proposalCount s' /\
                               metadata (proposalAt id s') = metadata (proposalAt id s)) /\
                              closed (proposalAt id s') = closed (proposalAt id s)));
    [|done].
  intros s1 s2 Heff [[Hc Hm] Hcl].
  destruct (effect_metadata E s1 s2 id Heff Hc) as [Hc' Hm'].
  split; [split; [done|congruence]|].
  rewrite <- Hcl. apply (effect_wide_never_closed E s1 s2 id Heff Hc).
  unfold optionsLength. unfold metadata in Hm.
  assert (options (proposalAt id s1) = options (proposalAt id s)) as -> by congruence.
  exact Hwide.
Qed.

(** * The claims *)

(** ** C1: a nullifier is accepted once *)

(** An accepted vote leaves its nullifier registered. *)
Lemma vote_registers_nullifier E tx id option signalHash n merkleRoot proof s s1 :
  vote E tx id option signalHash n merkleRoot proof s = Ok () s1 ->
  nullifierUsed (proposalAt id s1) n = true.
Proof.
  intros H. apply vote_ok in H as (_&_&_&_&_&_&weight&_&->).
  rewrite proposalAt_recordVote. destruct (decide (id = id)) as [_|]; [|done].
  cbv zeta. unfold nullifierUsed. cbn. by rewrite lookup_insert_eq.
Qed.

(** A vote that carries a registered nullifier fails before any write,
    with the failure kind of the first check it does not pass. *)
Lemma vote_replay E tx id option signalHash n merkleRoot proof s :
  nullifierUsed (proposalAt id s) n = true ->
  vote E tx id option signalHash n merkleRoot proof s =
  Fail (if negb (block_timestamp tx <? closes (proposalAt id s)) then ProposalClosedError
        else if negb (option <? optionsLength (proposalAt id s)) then InvalidOption
        else NullifierAlreadyUsed) s.
Proof.
  intros Hused. rewrite vote_eq. cbv zeta. rewrite Hused.
  destruct (negb _); [reflexivity|]. destruct (negb _); reflexivity.
Qed.

(** C1, counterexample: on the two-option proposal 1 a vote with
    nullifier 5 is accepted; a later vote that carries nullifier 5 with
    option index 7 is rejected with InvalidOption, not with
    NullifierAlreadyUsed. *)
Lemma replay_with_invalid_option :
  result (vote Scenario.deployed (Scenario.at_ 200) 1 1 (Scenario.signalOf 1) 5
            Scenario.root0 []) Scenario.yesNo = Done () /\
  result (vote Scenario.deployed (Scenario.at_ 210) 1 7 (Scenario.signalOf 7) 5
            Scenario.root0 []) Scenario.voted = Abort InvalidOption /\
  InvalidOption <> NullifierAlreadyUsed.
Proof.
  split; [vm_compute; reflexivity|]. split; [vm_compute; reflexivity|]. discriminate.
Qed.

(** C1, amended: after a vote with nullifier [n] on proposal [id] has been
    accepted, and after any further sequence of calls, every vote on [id]
    that carries [n] fails before any write and leaves the whole storage
    (tallies and nullifiers included) unchanged. The failure is
    NullifierAlreadyUsed when the later vote passes the two checks that
    come first (block time before [closes], option index in range);
    otherwise it is ProposalClosed or InvalidOption, by the order of the
    checks. *)
Theorem replayed_nullifier_rejected
    E tx id option signalHash n merkleRoot proof s s1
    calls tx' option' signalHash' merkleRoot' proof' :
  vote E tx id option signalHash n merkleRoot proof s = Ok () s1 ->
  let s2 := run E calls s1 in
  let p2 := proposalAt id s2 in
  let replay := vote E tx' id option' signalHash' n merkleRoot' proof' in
  replay s2 =
    Fail (if negb (block_timestamp tx' <? closes p2) then ProposalClosedError
          else if negb (option' <? optionsLength p2) then InvalidOption
          else NullifierAlreadyUsed) s2 /\
  transact replay s2 = s2.
Proof.
  intros Hok s2 p2 replay.
  assert (Hused : nullifierUsed (proposalAt id s2) n = true).
  { apply run_nullifier. eapply vote_registers_nullifier, Hok. }
  pose proof (vote_replay E tx' id option' signalHash' n merkleRoot' proof' s2 Hused) as H.
  split; [exact H|]. unfold transact, replay. by rewrite H.
Qed.

Lemma replayed_nullifier_rejected_witness :
  vote Scenario.deployed (Scenario.at_ 200) 1 1 (Scenario.signalOf 1) 5
    Scenario.root0 [] Scenario.yesNo = Ok () Scenario.voted /\
  transact (vote Scenario.deployed (Scenario.at_ 220) 1 0 (Scenario.signalOf 0) 5
              Scenario.root0 [])
           (run Scenario.deployed [] Scenario.voted)
  = run Scenario.deployed [] Scenario.voted.
Proof.
  assert (H : vote Scenario.deployed (Scenario.at_ 200) 1 1 (Scenario.signalOf 1) 5
                Scenario.root0 [] Scenario.yesNo = Ok () Scenario.voted)
    by (vm_compute; reflexivity).
  split; [exact H|].
  exact (proj2 (replayed_nullifier_rejected Scenario.deployed (Scenario.at_ 200) 1 1
                  (Scenario.signalOf 1) 5 Scenario.root0 [] Scenario.yesNo Scenario.voted
                  [] (Scenario.at_ 220) 0 (Scenario.signalOf 0) Scenario.root0 [] H)).
Defined.

(** Two votes that would each be accepted on their own and that share
    the proposal and the nullifier: whichever is submitted first is
    accepted, and the other one then fails with NullifierAlreadyUsed. *)
Lemma same_nullifier_either_order
    E id n s txa oa sa ra pa sa' txb ob sb rb pb sb' :
  vote E txa id oa sa n ra pa s = Ok () sa' ->
  vote E txb id ob sb n rb pb s = Ok () sb' ->
  vote E txb id ob sb n rb pb sa' = Fail NullifierAlreadyUsed sa' /\
  vote E txa id oa sa n ra pa sb' = Fail NullifierAlreadyUsed sb'.
Proof.
  assert (Hone : forall tx1 o1 s1 r1 p1 st1 tx2 o2 s2 r2 p2 st2,
             vote E tx1 id o1 s1 n r1 p1 s = Ok () st1 ->
             vote E tx2 id o2 s2 n r2 p2 s = Ok () st2 ->
             vote E tx2 id o2 s2 n r2 p2 st1 = Fail NullifierAlreadyUsed st1).
  { intros tx1 o1 s1 r1 p1 st1 tx2 o2 s2 r2 p2 st2 H1 H2.
    pose proof (vote_registers_nullifier _ _ _ _ _ _ _ _ _ _ H1) as Hused.
    rewrite (vote_replay _ _ _ _ _ _ _ _ _ Hused).
    apply vote_ok in H1 as (_&_&_&_&_&_&w&_&->).
    apply vote_ok in H2 as (Ht&Ho&_).
    rewrite proposalAt_recordVote. destruct (decide (id = id)) as [_|]; [|done].
    cbv zeta. cbn [closes set_tally set_nullifiers].
    change (optionsLength (set_tally _ (set_nullifiers _ (proposalAt id s))))
      with (optionsLength (proposalAt id s)).
    apply N.ltb_lt in Ht, Ho. by rewrite Ht, Ho. }
  intros Ha Hb. split; eapply Hone; eassumption.
Qed.

(** ** C2: the mock verifier *)

Lemma voteWeight_one E tx p :
  isQuadratic (mode p) && negb (govToken E =? 0) = false ->
  voteWeight E tx p = Done 1.
Proof. unfold voteWeight. by intros ->. Qed.

Lemma voteWeight_sqrt E tx p :
  isQuadratic (mode p) && negb (govToken E =? 0) = true ->
  govToken_getVotes E (msg_sender tx) < uint_max 256 ->
  voteWeight E tx p = Done (N.sqrt (govToken_getVotes E (msg_sender tx))).
Proof. unfold voteWeight. intros -> Hb. by apply sqrt_correct. Qed.

(** The pure functions abort with compiler panics only. *)
Lemma sqrt_abort x e : sqrt x = Abort e -> e = ARITHMETIC_OVERFLOW.
Proof.
  destruct (N.lt_ge_cases x (uint_max 256)) as [Hlt|Hge].
  - rewrite sqrt_correct by done. discriminate.
  - unfold sqrt. destruct (N.eqb_spec x 0) as [->|_]; [discriminate|].
    unfold checked_add, fits.
    destruct (N.leb_spec (x + 1) (uint_max 256)) as [|_]; [lia|].
    cbn. by intros [= <-].
Qed.

Lemma countDigits_eq temp digits :
  countDigits temp digits =
  if negb (temp =? 0) then
    digits' ← checked_add 256 digits 1; countDigits (temp / 10) digits'
  else Done digits.
Proof.
  rewrite countDigits_equation_1.
  change (negb (temp =? 0)) with (proj1_sig (inspect (negb (temp =? 0)))) at 2.
  destruct (inspect (negb (temp =? 0))) as [[] H]; reflexivity.
Qed.

Lemma fillDigits_eq value digits buffer :
  fillDigits value digits buffer =
  if negb (value =? 0) then
    digits' ← checked_sub digits 1;
    code ← checked_add 256 48 (value mod 10);
    buffer' ← store buffer digits' (ascii_of_N (to_uint 8 code));
    fillDigits (value / 10) digits' buffer'
  else Done buffer.
Proof.
  rewrite fillDigits_equation_1.
  change (negb (value =? 0)) with (proj1_sig (inspect (negb (value =? 0)))) at 2.
  destruct (inspect (negb (value =? 0))) as [[] H]; reflexivity.
Qed.

Lemma countDigits_abort temp :
  forall digits e, countDigits temp digits = Abort e -> exists c, e = Panic c.
Proof.
  induction temp as [temp IH] using (well_founded_induction N.lt_wf_0).
  intros digits e. rewrite countDigits_eq.
  destruct (N.eqb_spec temp 0) as [|Hne]; [discriminate|]. cbn [negb].
  unfold checked_add. destruct (fits 256 (digits + 1)); cbn.
  - apply IH. apply N.div_lt; lia.
  - intros [= <-]. by eexists.
Qed.

Lemma fillDigits_abort value :
  forall digits buffer e,
    fillDigits value digits buffer = Abort e -> exists c, e = Panic c.
Proof.
  induction value as [value IH] using (well_founded_induction N.lt_wf_0).
  intros digits buffer e. rewrite fillDigits_eq.
  destruct (N.eqb_spec value 0) as [|Hne]; [discriminate|]. cbn [negb].
  unfold checked_sub. destruct (1 <=? digits); cbn; [|intros [= <-]; by eexists].
  unfold checked_add. destruct (fits 256 (48 + value mod 10)); cbn;
    [|intros [= <-]; by eexists].
  unfold store. destruct (_ <? _); cbn; [|intros [= <-]; by eexists].
  apply IH. apply N.div_lt; lia.
Qed.

Lemma _toString_abort value e : _toString value = Abort e -> exists c, e = Panic c.
Proof.
  unfold _toString. destruct (value =? 0); [discriminate|].
  destruct (countDigits value 0) as [d|e'] eqn:Hd; cbn.
  - destruct (fillDigits value d _) as [b|e''] eqn:Hf; cbn; [discriminate|].
    intros [= <-]. eapply fillDigits_abort, Hf.
  - intros [= <-]. eapply countDigits_abort, Hd.
Qed.

Lemma voteWeight_abort E tx p e : voteWeight E tx p = Abort e -> e = ARITHMETIC_OVERFLOW.
Proof.
  unfold voteWeight. destruct (_ && _); [apply sqrt_abort|discriminate].
Qed.

(** The outcome of [vote] once a submission has passed the five checks
    that precede the proof check. *)
Lemma vote_past_checks E tx id option signalHash nullifierHash merkleRoot proof s :
  option <= uint_max 8 ->
  block_timestamp tx < closes (proposalAt id s) ->
  option < optionsLength (proposalAt id s) ->
  nullifierUsed (proposalAt id s) nullifierHash = false ->
  merkleRoot = memberMerkleRoot s ->
  signalHash = expectedSignal E option ->
  vote E tx id option signalHash nullifierHash merkleRoot proof s =
    if verifier_verifyProof E proof [merkleRoot; nullifierHash; signalHash; id]
    then match voteWeight E tx (proposalAt id s) with
         | Done weight =>
             Ok () (recordVote id option signalHash nullifierHash merkleRoot weight s)
         | Abort e => Fail e (registerNullifier id signalHash nullifierHash merkleRoot s)
         end
    else Fail ProofInvalid s.
Proof.
  intros Hu8 Hopen Hopt Hfresh -> ->. rewrite vote_eq. cbv zeta.
  apply N.ltb_lt in Hopen, Hopt. rewrite Hopen, Hopt, Hfresh, N.eqb_refl.
  rewrite (_toString_uint8 option Hu8). cbn [negb].
  unfold expectedSignal. rewrite N.eqb_refl. cbn [negb].
  by destruct (verifier_verifyProof E proof _).
Qed.

(** The mock verifier: [Pairing.verify] and
    [SemaphoreVerifier.verifyProof] return true on every input. With that
    verifier behind [vote], no call of [vote] fails with ProofInvalid, and
    a submission that passes the proposal-open, option-range, nullifier,
    root and signal checks goes past the proof check whatever the proof
    is: its outcome is the one of the write phase, which accepts the vote
    when the proposal is not Quadratic with a token, or when the sender's
    balance is below the largest [uint256]. *)
Theorem mock_verifier_accepts_every_proof
    E tx id option signalHash nullifierHash merkleRoot proof s :
  verifier_verifyProof E = SemaphoreVerifier.verifyProof ->
  option <= uint_max 8 ->
  block_timestamp tx < closes (proposalAt id s) ->
  option < optionsLength (proposalAt id s) ->
  nullifierUsed (proposalAt id s) nullifierHash = false ->
  merkleRoot = memberMerkleRoot s ->
  signalHash = expectedSignal E option ->
  (forall pr sg, verifier_verifyProof E pr sg = true) /\
  (forall pr sg vk, Pairing.verify pr sg vk = true) /\
  (forall tx0 id0 option0 signalHash0 nullifierHash0 merkleRoot0 proof0 s0 s0',
     vote E tx0 id0 option0 signalHash0 nullifierHash0 merkleRoot0 proof0 s0
     <> Fail ProofInvalid s0') /\
  vote E tx id option signalHash nullifierHash merkleRoot proof s =
    match voteWeight E tx (proposalAt id s) with
    | Done weight =>
        Ok () (recordVote id option signalHash nullifierHash merkleRoot weight s)
    | Abort e => Fail e (registerNullifier id signalHash nullifierHash merkleRoot s)
    end /\
  (isQuadratic (mode (proposalAt id s)) && negb (govToken E =? 0) = false \/
   govToken_getVotes E (msg_sender tx) < uint_max 256 ->
   exists s', vote E tx id option signalHash nullifierHash merkleRoot proof s = Ok () s').
Proof.
  intros Hmock Hu8 Hopen Hopt Hfresh Hroot Hsig.
  assert (Htrue : forall pr sg, verifier_verifyProof E pr sg = true)
    by (intros pr sg; by rewrite Hmock).
  assert (Hpast := vote_past_checks E tx id option signalHash nullifierHash merkleRoot
                      proof s Hu8 Hopen Hopt Hfresh Hroot Hsig).
  rewrite Htrue in Hpast.
  split; [exact Htrue|]. split; [reflexivity|]. split; [|split].
  - intros tx0 id0 option0 signalHash0 nullifierHash0 merkleRoot0 proof0 s0 s0'.
    rewrite vote_eq. cbv zeta. rewrite Htrue. cbn [negb].
    repeat match goal with
           | |- (if ?c then _ else _) <> _ => destruct c
           | |- match ?c with Done _ => _ | Abort _ => _ end <> _ =>
               let H := fresh "H" in destruct c eqn:H
           end; try discriminate.
    + intros [= -> _]. apply voteWeight_abort in H0. discriminate.
    + intros [= -> _]. apply _toString_abort in H as [c Hc]. discriminate.
  - exact Hpast.
  - intros Hweight. rewrite Hpast.
    destruct (isQuadratic (mode (proposalAt id s)) && negb (govToken E =? 0)) eqn:Hq.
    + destruct Hweight as [|Hb]; [done|]. rewrite voteWeight_sqrt by done. by eexists.
    + rewrite voteWeight_one by done. by eexists.
Qed.

Lemma mock_verifier_accepts_every_proof_witness :
  vote Scenario.deployed (Scenario.at_ 200) 1 1 (Scenario.signalOf 1) 5 Scenario.root0
       [1; 2; 3; 4; 5; 6; 7; 8] Scenario.yesNo
  = Ok () Scenario.voted.
Proof.
  rewrite (proj1 (proj2 (proj2 (proj2
            (mock_verifier_accepts_every_proof Scenario.deployed (Scenario.at_ 200) 1 1
               (Scenario.signalOf 1) 5 Scenario.root0 [1; 2; 3; 4; 5; 6; 7; 8]
               Scenario.yesNo
               eq_refl
               ltac:(vm_compute; discriminate)
               ltac:(vm_compute; reflexivity)
               ltac:(vm_compute; reflexivity)
               ltac:(vm_compute; reflexivity)
               ltac:(vm_compute; reflexivity)
               ltac:(vm_compute; reflexivity)))))).
  vm_compute. reflexivity.
Defined.

(** C2, the failing input: on the Quadratic proposal 1, with the mock
    verifier and a governance token that reports the largest [uint256] as
    the sender's balance, a submission passes the proposal-open,
    option-range, nullifier, root and signal checks and the verifier
    returns true, yet the vote is not accepted: the weight computation
    aborts with the arithmetic panic of [sqrt] and the call is reverted. *)
Theorem passing_vote_reverts_in_sqrt :
  verifier_verifyProof Scenario.whale = SemaphoreVerifier.verifyProof /\
  block_timestamp (Scenario.at_ 200) < closes (proposalAt 1 Scenario.quadratic) /\
  1 < optionsLength (proposalAt 1 Scenario.quadratic) /\
  nullifierUsed (proposalAt 1 Scenario.quadratic) 5 = false /\
  Scenario.root0 = memberMerkleRoot Scenario.quadratic /\
  Scenario.signalOf 1 = expectedSignal Scenario.whale 1 /\
  verifier_verifyProof Scenario.whale []
    [Scenario.root0; 5; Scenario.signalOf 1; 1] = true /\
  mode (proposalAt 1 Scenario.quadratic) = Quadratic /\
  govToken_getVotes Scenario.whale (msg_sender (Scenario.at_ 200)) = uint_max 256 /\
  result (vote Scenario.whale (Scenario.at_ 200) 1 1 (Scenario.signalOf 1) 5
            Scenario.root0 []) Scenario.quadratic = Abort ARITHMETIC_OVERFLOW /\
  transact (vote Scenario.whale (Scenario.at_ 200) 1 1 (Scenario.signalOf 1) 5
              Scenario.root0 []) Scenario.quadratic = Scenario.quadratic.
Proof. repeat split; vm_compute; reflexivity. Qed.

(** ** C3: the winner scan and zero tallies *)

(** The scan reads [options.length] and [tally] only. *)
Lemma winnerLoop_set_closed b p i high winner (k : nat) :
  (N.to_nat (optionsLength p) - N.to_nat i)%nat = k ->
  winnerLoop (set_closed b p) i high winner = winnerLoop p i high winner.
Proof.
  revert i high winner. induction k as [|k IH]; intros i high winner Hk;
    rewrite (winnerLoop_eq (set_closed b p)), (winnerLoop_eq p);
    change (optionsLength (set_closed b p)) with (optionsLength p);
    change (tallyOf (set_closed b p) i) with (tallyOf p i);
    (destruct (N.ltb_spec i (optionsLength p)) as [Hi|]; [|reflexivity]); [lia|].
  cbv zeta.
  destruct (if high <? tallyOf p i then (tallyOf p i, i)
            else if tallyOf p i =? high then (high, uint_max 8)
                 else (high, winner)) as [high' winner'].
  destruct (fits 8 (i + 1)); [|reflexivity]. apply IH. lia.
Qed.

Lemma closeProposal_reports tx id s :
  let p := proposalAt id s in
  closed p = false -> closes p <= block_timestamp tx ->
  forall w, winnerLoop p 0 0 (uint_max 8) = Done w -> reportsWinner tx id w s.
Proof.
  intros p Hc Ht w Hw. unfold reportsWinner. rewrite closeProposal_eq. fold p.
  cbv zeta. rewrite Hc. destruct (N.leb_spec (closes p) (block_timestamp tx)); [|lia].
  cbn [negb].
  rewrite (winnerLoop_set_closed true p 0 0 (uint_max 8) _ eq_refl), Hw.
  eexists. split; reflexivity.
Qed.

Lemma reportsWinner_scan tx id s w :
  reportsWinner tx id w s ->
  winnerLoop (proposalAt id s) 0 0 (uint_max 8) = Done w.
Proof.
  intros (s' & Hclose & Hev). rewrite closeProposal_eq in Hclose. cbv zeta in Hclose.
  destruct (closed (proposalAt id s)); [discriminate|].
  destruct (negb _); [discriminate|].
  rewrite (winnerLoop_set_closed true (proposalAt id s) 0 0 (uint_max 8) _ eq_refl)
    in Hclose.
  destruct (winnerLoop (proposalAt id s) 0 0 (uint_max 8)) as [w'|]; [|discriminate].
  injection Hclose as <-. cbn in Hev. apply app_inv_head in Hev. congruence.
Qed.

(** C3, counterexample: with tallies [0; 5] [closeProposal] reports
    option 1, and no proposal with two or more options, a unique
    strictly-highest option and a zero-tally option is ever reported as
    "no winner". *)
Lemma zero_tally_keeps_leader :
  result (tallies 1 0 0) Scenario.zeroFive = Done [0; 5] /\
  reportsWinner (Scenario.at_ 400) 1 1 Scenario.zeroFive /\
  ~ (exists s tx id j,
       2 <= optionsLength (proposalAt id s) /\
       uniqueLeader (proposalAt id s) j /\
       (exists i, i < optionsLength (proposalAt id s) /\ tallyOf (proposalAt id s) i = 0) /\
       reportsWinner tx id (uint_max 8) s).
Proof.
  split; [vm_compute; reflexivity|]. split.
  - eexists. split; vm_compute; reflexivity.
  - intros (s & tx & id & j & Hmin & Hlead & _ & Hrep).
    apply reportsWinner_scan in Hrep.
    destruct (N.le_gt_cases (optionsLength (proposalAt id s)) 255) as [Hmax|Hwide].
    + rewrite (winnerLoop_unique_leader _ j Hmin Hmax Hlead) in Hrep.
      injection Hrep as ->. destruct Hlead as [Hj _].
      change (uint_max 8) with 255 in Hj. lia.
    + rewrite (winnerLoop_overflow (proposalAt id s) ltac:(lia) _ 0 _ _ eq_refl) in Hrep
        by lia.
      discriminate.
Qed.

(** C3, amended: on a proposal with 2 to 255 options that is due for
    closing, [closeProposal] succeeds and reports the unique
    strictly-highest option whenever there is one, whether or not other
    options have a zero tally; it reports the "no winner" sentinel exactly
    when no option is strictly highest. A zero tally met while the running
    maximum is zero only rewrites the sentinel that is already there. *)
Theorem closeProposal_reports_unique_leader tx id s :
  let p := proposalAt id s in
  closed p = false -> closes p <= block_timestamp tx ->
  2 <= optionsLength p -> optionsLength p <= 255 ->
  exists w,
    reportsWinner tx id w s /\
    (forall j, uniqueLeader p j -> w = j) /\
    (w = uint_max 8 <-> forall j, ~ uniqueLeader p j).
Proof.
  intros p Hc Ht Hmin Hmax.
  destruct (winnerLoop_result p Hmax _ 0 0 (uint_max 8) eq_refl) as (w & Hw & Hres).
  - lia.
  - intros m Hm. lia.
  - by left.
  - exists w. split; [by apply closeProposal_reports|].
    assert (Hl : forall j, uniqueLeader p j -> w = j).
    { intros j Hj. rewrite (winnerLoop_unique_leader p j Hmin Hmax Hj) in Hw. congruence. }
    split; [exact Hl|]. split.
    + intros -> j Hj. pose proof (Hl j Hj) as <-. destruct Hj as [Hj _].
      change (uint_max 8) with 255 in Hj. lia.
    + intros Hnone. destruct Hres as [|Hlead]; [done|]. by destruct (Hnone w).
Qed.

Lemma closeProposal_reports_unique_leader_witness :
  exists w,
    reportsWinner (Scenario.at_ 400) 1 w Scenario.zeroFive /\
    (forall j, uniqueLeader (proposalAt 1 Scenario.zeroFive) j -> w = j) /\
    (w = uint_max 8 <-> forall j, ~ uniqueLeader (proposalAt 1 Scenario.zeroFive) j).
Proof.
  exact (closeProposal_reports_unique_leader (Scenario.at_ 400) 1 Scenario.zeroFive
           ltac:(vm_compute; reflexivity)
           ltac:(vm_compute; discriminate)
           ltac:(vm_compute; discriminate)
           ltac:(vm_compute; discriminate)).
Defined.

(** ** C4: a failed vote writes nothing *)

(** C4: when [vote] fails, the call is reverted and the storage is the
    one before the call: tallies, nullifiers, root, proposal count.
    Moreover the failure arises before the first write of the function
    body (all checks come first), the one exception being an arithmetic
    panic in the weight computation, which the roll-back undoes. A vote on
    a proposal still open whose option index is not below
    [options.length] fails with InvalidOption. *)
Theorem vote_failure_leaves_state
    E tx id option signalHash nullifierHash merkleRoot proof s e s' :
  vote E tx id option signalHash nullifierHash merkleRoot proof s = Fail e s' ->
  transact (vote E tx id option signalHash nullifierHash merkleRoot proof) s = s /\
  (s' = s \/
   (e = ARITHMETIC_OVERFLOW /\ voteWeight E tx (proposalAt id s) = Abort e /\
    s' = registerNullifier id signalHash nullifierHash merkleRoot s)) /\
  (forall reason, e = Revert reason -> s' = s) /\
  (block_timestamp tx < closes (proposalAt id s) ->
   optionsLength (proposalAt id s) <= option -> e = InvalidOption).
Proof.
  intros Hfail.
  assert (Hwhere : s' = s \/
            (e = ARITHMETIC_OVERFLOW /\ voteWeight E tx (proposalAt id s) = Abort e /\
             s' = registerNullifier id signalHash nullifierHash merkleRoot s)).
  { revert Hfail. rewrite vote_eq. cbv zeta.
    repeat match goal with
           | |- (if ?c then _ else _) = _ -> _ => destruct c
           | |- match ?c with Done _ => _ | Abort _ => _ end = _ -> _ =>
               let H := fresh "H" in destruct c eqn:H
           end; intros [= <- <-]; auto.
    right. split; [|done]. eapply voteWeight_abort; eassumption. }
  split; [unfold transact; by rewrite Hfail|]. split; [exact Hwhere|]. split.
  - intros reason ->. destruct Hwhere as [|[? _]]; [done|discriminate].
  - intros Hopen Hopt. revert Hfail. rewrite vote_eq. cbv zeta.
    destruct (N.ltb_spec (block_timestamp tx) (closes (proposalAt id s))); [|lia].
    destruct (N.ltb_spec option (optionsLength (proposalAt id s))); [lia|].
    cbn. by intros [= <- _].
Qed.

Lemma vote_failure_leaves_state_witness :
  transact (vote Scenario.deployed (Scenario.at_ 210) 1 7 (Scenario.signalOf 7) 6
              Scenario.root0 []) Scenario.voted = Scenario.voted.
Proof.
  exact (proj1 (vote_failure_leaves_state Scenario.deployed (Scenario.at_ 210) 1 7
                  (Scenario.signalOf 7) 6 Scenario.root0 [] Scenario.voted
                  InvalidOption Scenario.voted ltac:(vm_compute; reflexivity))).
Defined.

(** ** C5: the signal check *)

(** C5: on a proposal still open, with an option index in range, a fresh
    nullifier and the current root, a vote whose [signalHash] differs from
    the hash of "VOTE_" followed by the decimal rendering of the option
    index fails with SignalMismatch, whatever the verifier would answer;
    when [signalHash] is that hash the signal check passes and the
    outcome is decided by the proof check and the write phase. *)
Theorem vote_signal_check
    E tx id option signalHash nullifierHash merkleRoot proof s :
  option <= uint_max 8 ->
  block_timestamp tx < closes (proposalAt id s) ->
  option < optionsLength (proposalAt id s) ->
  nullifierUsed (proposalAt id s) nullifierHash = false ->
  merkleRoot = memberMerkleRoot s ->
  let outcome := vote E tx id option signalHash nullifierHash merkleRoot proof s in
  _toString option = Done (decimal option) /\
  (signalHash <> keccak256 E ("VOTE_" ++ decimal option) ->
   outcome = Fail SignalMismatch s) /\
  (signalHash = keccak256 E ("VOTE_" ++ decimal option) ->
   outcome =
     if verifier_verifyProof E proof [merkleRoot; nullifierHash; signalHash; id]
     then match voteWeight E tx (proposalAt id s) with
          | Done weight =>
              Ok () (recordVote id option signalHash nullifierHash merkleRoot weight s)
          | Abort e => Fail e (registerNullifier id signalHash nullifierHash merkleRoot s)
          end
     else Fail ProofInvalid s).
Proof.
  intros Hu8 Hopen Hopt Hfresh Hroot outcome.
  split; [by apply _toString_uint8|]. split.
  - intros Hne. unfold outcome. rewrite vote_eq. cbv zeta.
    apply N.ltb_lt in Hopen, Hopt. rewrite Hopen, Hopt, Hfresh, Hroot, N.eqb_refl.
    rewrite (_toString_uint8 option Hu8). cbn [negb].
    by destruct (N.eqb_spec signalHash (keccak256 E ("VOTE_" ++ decimal option))).
  - intros Heq. by apply vote_past_checks.
Qed.

Lemma vote_signal_check_witness :
  vote Scenario.deployed (Scenario.at_ 200) 1 1 (Scenario.signalOf 0) 5 Scenario.root0 []
       Scenario.yesNo
  = Fail SignalMismatch Scenario.yesNo.
Proof.
  apply (proj1 (proj2
           (vote_signal_check Scenario.deployed (Scenario.at_ 200) 1 1
              (Scenario.signalOf 0) 5 Scenario.root0 [] Scenario.yesNo
              ltac:(vm_compute; discriminate)
              ltac:(vm_compute; reflexivity)
              ltac:(vm_compute; reflexivity)
              ltac:(vm_compute; reflexivity)
              ltac:(vm_compute; reflexivity)))).
  vm_compute. discriminate.
Defined.

(** ** C6: votes and closure *)

(** C6, counterexample: a vote submitted at the closing time of proposal 1
    (time 400), valid in every other respect, is rejected with
    ProposalClosed; no vote is ever accepted at or after the closing time
    of its proposal. *)
Lemma no_vote_at_or_after_closing_time :
  closes (proposalAt 1 Scenario.yesNo) = 400 /\
  result (vote Scenario.deployed (Scenario.at_ 400) 1 1 (Scenario.signalOf 1) 5
            Scenario.root0 []) Scenario.yesNo = Abort ProposalClosedError /\
  ~ (exists E tx id option signalHash nullifierHash merkleRoot proof s s',
       closes (proposalAt id s) <= block_timestamp tx /\
       vote E tx id option signalHash nullifierHash merkleRoot proof s = Ok () s').
Proof.
  split; [vm_compute; reflexivity|]. split; [vm_compute; reflexivity|].
  intros (E & tx & id & option & signalHash & nullifierHash & merkleRoot & proof & s & s'
          & Hlate & Hok).
  apply vote_ok in Hok as (Hopen & _). lia.
Qed.

(** C6, amended: no vote is accepted at or after [closes]: a vote
    submitted then is rejected with ProposalClosed, before any write, and
    the storage stays as it was. Every accepted vote is submitted strictly
    before [closes], and its weight is added to the tally of its option. *)
Theorem vote_only_before_closing_time
    E tx id option signalHash nullifierHash merkleRoot proof s :
  let outcome := vote E tx id option signalHash nullifierHash merkleRoot proof s in
  (closes (proposalAt id s) <= block_timestamp tx ->
   outcome = Fail ProposalClosedError s /\
   transact (vote E tx id option signalHash nullifierHash merkleRoot proof) s = s) /\
  (forall s', outcome = Ok () s' ->
     block_timestamp tx < closes (proposalAt id s) /\
     exists weight,
       voteWeight E tx (proposalAt id s) = Done weight /\
       tallyOf (proposalAt id s') option
         = wrapping_add 256 (tallyOf (proposalAt id s) option) weight).
Proof.
  intros outcome. split.
  - intros Hlate.
    assert (H : outcome = Fail ProposalClosedError s).
    { unfold outcome. rewrite vote_eq. cbv zeta.
      destruct (N.ltb_spec (block_timestamp tx) (closes (proposalAt id s))); [lia|].
      reflexivity. }
    split; [exact H|]. unfold transact. fold outcome. by rewrite H.
  - intros s' Hok. apply vote_ok in Hok as (Hopen&_&_&_&_&_&weight&Hw&->).
    split; [exact Hopen|]. exists weight. split; [exact Hw|].
    rewrite proposalAt_recordVote. destruct (decide (id = id)) as [_|]; [|done].
    cbv zeta. unfold tallyOf at 1. cbn [tally set_tally].
    rewrite lookup_insert_eq. reflexivity.
Qed.

Lemma vote_only_before_closing_time_witness :
  vote Scenario.deployed (Scenario.at_ 400) 1 1 (Scenario.signalOf 1) 5 Scenario.root0 []
       Scenario.yesNo
  = Fail ProposalClosedError Scenario.yesNo /\
  transact (vote Scenario.deployed (Scenario.at_ 400) 1 1 (Scenario.signalOf 1) 5
              Scenario.root0 []) Scenario.yesNo = Scenario.yesNo.
Proof.
  apply (proj1 (vote_only_before_closing_time Scenario.deployed (Scenario.at_ 400) 1 1
                  (Scenario.signalOf 1) 5 Scenario.root0 [] Scenario.yesNo)).
  vm_compute. discriminate.
Defined.

(** ** C7: the vote weight and the square root *)

(** The weight of an accepted vote: 1 in Simple mode or without a
    governance token, the integer square root of the voter's balance
    otherwise; it is added to the tally of the chosen option and to no
    other. *)
Lemma vote_weight_added E tx id option signalHash nullifierHash merkleRoot proof s s' :
  vote E tx id option signalHash nullifierHash merkleRoot proof s = Ok () s' ->
  let p := proposalAt id s in
  let weight :=
    if isQuadratic (mode p) && negb (govToken E =? 0)
    then N.sqrt (govToken_getVotes E (msg_sender tx))
    else 1 in
  tallyOf (proposalAt id s') option = wrapping_add 256 (tallyOf p option) weight /\
  (forall i, i <> option -> tallyOf (proposalAt id s') i = tallyOf p i) /\
  (forall id' i, id' <> id -> tallyOf (proposalAt id' s') i = tallyOf (proposalAt id' s) i).
Proof.
  intros Hok p weight. apply vote_ok in Hok as (_&_&_&_&_&_&w&Hw&->).
  assert (w = weight) as ->.
  { unfold voteWeight in Hw. fold p in Hw. unfold weight.
    destruct (isQuadratic (mode p) && negb (govToken E =? 0)); [|congruence].
    destruct (N.lt_ge_cases (govToken_getVotes E (msg_sender tx)) (uint_max 256)) as [Hlt|Hge].
    - rewrite sqrt_correct in Hw by done. congruence.
    - exfalso. revert Hw. unfold sqrt.
      destruct (N.eqb_spec (govToken_getVotes E (msg_sender tx)) 0) as [Hz|_].
      + rewrite Hz in Hge. vm_compute in Hge. by destruct Hge.
      + unfold checked_add, fits.
        destruct (N.leb_spec (govToken_getVotes E (msg_sender tx) + 1) (uint_max 256));
          [lia|discriminate]. }
  split; [|split].
  - rewrite proposalAt_recordVote. destruct (decide (id = id)) as [_|]; [|done].
    cbv zeta. unfold tallyOf at 1. cbn [tally set_tally]. by rewrite lookup_insert_eq.
  - intros i Hi. rewrite proposalAt_recordVote. destruct (decide (id = id)) as [_|]; [|done].
    cbv zeta. unfold tallyOf at 1. cbn [tally set_tally].
    by rewrite lookup_insert_ne by congruence.
  - intros id' i Hne. rewrite proposalAt_recordVote.
    by destruct (decide (id' = id)).
Qed.

(** C7, the failing input: [sqrt] applied to the largest [uint256] aborts
    with an arithmetic panic on [x + 1], where the integer square root is
    2^128 - 1; a vote on a Quadratic proposal by a voter whose balance is
    that value, valid in every other respect, is reverted. *)
Theorem sqrt_overflows_at_uint_max :
  sqrt (uint_max 256) = Abort ARITHMETIC_OVERFLOW /\
  N.sqrt (uint_max 256) = 2 ^ 128 - 1 /\
  result (vote Scenario.whale (Scenario.at_ 200) 1 1 (Scenario.signalOf 1) 5
            Scenario.root0 []) Scenario.quadratic = Abort ARITHMETIC_OVERFLOW.
Proof. repeat split; vm_compute; reflexivity. Qed.

(** ** C8: the partial tally reader *)

(** A stored length of 2^16 or more is truncated by [uint16(...)]. *)
Lemma tallies_truncated_length id start n s :
  to_uint 16 (optionsLength (proposalAt id s)) <= start ->
  tallies id start n s = Fail OutOfBounds s.
Proof.
  intros H. rewrite tallies_eq. cbv zeta.
  destruct (N.ltb_spec start (to_uint 16 (optionsLength (proposalAt id s)))); [lia|].
  reflexivity.
Qed.

(** C8, the failing input: on the two-option proposal 1 with tallies
    [0; 1], [tallies(1, 1, 65535)] is reverted by the overflow check on
    [start + n], where clamping the end to [options.length] gives [1], the
    result of [tallies(1, 1, 0)] and of [tallies(1, 1, 1)]. *)
Theorem tallies_wraparound_panics :
  result (tallies 1 0 0) Scenario.voted = Done [0; 1] /\
  result (tallies 1 1 0) Scenario.voted = Done [1] /\
  result (tallies 1 1 1) Scenario.voted = Done [1] /\
  result (tallies 1 1 65535) Scenario.voted = Abort ARITHMETIC_OVERFLOW.
Proof. repeat split; vm_compute; reflexivity. Qed.

(** ** C9: getProposal *)

(** C9, counterexample: no proposal 7 was ever created, and
    [getProposal(7)] succeeds with the zero record. *)
Lemma getProposal_unknown_id_succeeds :
  proposalCount Scenario.yesNo = 1 /\
  result (getProposal (Scenario.at_ 200) 7) Scenario.yesNo
  = Done (""%string, Simple, false, 0, []).
Proof. split; vm_compute; reflexivity. Qed.

(** In every reachable state the slot of id 0 holds no proposal: ids
    are assigned from 1. *)
Lemma reachable_id_zero E s :
  reachable E s -> metadata (proposalAt 0 s) = metadata emptyProposal.
Proof.
  intros (tx0 & root & calls & ->).
  destruct (run_metadata E calls (constructor tx0 root) 0 (N.le_0_l _)) as [_ Hm].
  by rewrite Hm.
Qed.

(** C9, amended: [getProposal] never fails and writes nothing; it returns
    the title, mode, closing time and options stored under the id, with
    isOpen = (not closed) and (now < closes). For an id under which no
    proposal has been created (id 0, or an id above the proposal count),
    in any state the contract can reach, that is the zero record: empty
    title, Simple, not open, closing time 0, no options. For a proposal
    made by [createProposal] it is, after any further calls, the title,
    mode and options given at creation and the closing time computed
    there. *)
Theorem getProposal_returns_record
    E tx id s txc title description mode opts duration s0 idc s1 calls :
  reachable E s ->
  createProposal txc title description mode opts duration s0 = Ok idc s1 ->
  (let p := proposalAt id s in
   getProposal tx id s =
     Ok (PrivacyVotingDAOv2.title p, PrivacyVotingDAOv2.mode p,
         negb (closed p) && (block_timestamp tx <? closes p), closes p, options p) s) /\
  (id = 0 \/ proposalCount s < id ->
   result (getProposal tx id) s = Done (""%string, Simple, false, 0, [])) /\
  (let s2 := run E calls s1 in
   let closesAt := to_uint 64 (block_timestamp txc) + duration in
   result (getProposal tx idc) s2 =
     Done (title, mode,
           negb (closed (proposalAt idc s2)) && (block_timestamp tx <? closesAt),
           closesAt, opts)).
Proof.
  intros Hreach Hcreate. split; [reflexivity|]. split.
  - intros Hid.
    assert (Hm : metadata (proposalAt id s) = metadata emptyProposal).
    { destruct Hid as [->|Hid]; [by apply (reachable_id_zero E)|].
      by apply (reachable_unborn E). }
    unfold result. rewrite getProposal_eq. cbv zeta.
    unfold metadata in Hm. cbn in Hm. injection Hm as -> _ -> -> ->.
    rewrite andb_comm. by destruct (block_timestamp tx).
  - cbv zeta. apply createProposal_ok in Hcreate as (_&_&_&Hcount&_&_&_&_&Hnew).
    destruct (run_metadata E calls s1 idc ltac:(lia)) as [_ Hm].
    rewrite Hnew in Hm. unfold metadata in Hm. cbn in Hm.
    injection Hm as Ht _ Hmo Ho Hc.
    unfold result. rewrite getProposal_eq. cbv zeta. by rewrite Ht, Hmo, Ho, Hc.
Qed.

Lemma getProposal_returns_record_witness :
  result (getProposal (Scenario.at_ 200) 0) Scenario.voted
  = Done (""%string, Simple, false, 0, []).
Proof.
  refine (proj1 (proj2
            (getProposal_returns_record Scenario.deployed (Scenario.at_ 200) 0
               Scenario.voted (Scenario.at_ 100) "Budget" "Approve the budget" Simple
               ["Yes"; "No"]%string 300 Scenario.genesis 1 Scenario.yesNo [] _ _))
            (or_introl eq_refl)).
  - exists (Scenario.at_ 100), Scenario.root0,
      [(Scenario.at_ 100,
        CreateProposal "Budget" "Approve the budget" Simple ["Yes"; "No"]%string 300);
       (Scenario.at_ 200, Vote 1 1 (Scenario.signalOf 1) 5 Scenario.root0 [])].
    vm_compute. reflexivity.
  - vm_compute. reflexivity.
Defined.

(** ** C10: proposals with 256 options or more *)

Lemma closeProposal_wide tx id s :
  256 <= optionsLength (proposalAt id s) ->
  closeProposal tx id s =
    if closed (proposalAt id s) then Fail AlreadyClosed s
    else if negb (closes (proposalAt id s) <=? block_timestamp tx) then Fail TooEarly s
    else Fail ARITHMETIC_OVERFLOW (updateProposal id (set_closed true) s).
Proof.
  intros Hwide. rewrite closeProposal_eq. cbv zeta.
  by rewrite (winnerLoop_overflow (set_closed true (proposalAt id s)) Hwide _ 0 _ _ eq_refl).
Qed.

(** C10: [createProposal] accepts a list of 256 options or more; for the
    proposal it makes, after any sequence of calls, every call of
    [closeProposal] fails (once the proposal is due, by the overflow of
    the 8-bit loop counter at index 255, before the end of the list) and
    is reverted, and the [closed] flag keeps the value the storage slot
    had before creation: the proposal never becomes closed. *)
Theorem wide_proposal_never_closes
    E txc title description mode opts duration s0 id s1 calls tx :
  createProposal txc title description mode opts duration s0 = Ok id s1 ->
  256 <= N.of_nat (length opts) ->
  let s := run E calls s1 in
  optionsLength (proposalAt id s) = N.of_nat (length opts) /\
  closed (proposalAt id s) = closed (proposalAt id s0) /\
  (exists e s', closeProposal tx id s = Fail e s') /\
  (closed (proposalAt id s0) = false ->
   closes (proposalAt id s) <= block_timestamp tx ->
   closeProposal tx id s = Fail ARITHMETIC_OVERFLOW (updateProposal id (set_closed true) s)) /\
  transact (closeProposal tx id) s = s.
Proof.
  intros Hcreate Hwide s.
  apply createProposal_ok in Hcreate as (_&_&_&Hcount&_&_&_&_&Hnew).
  assert (Hlen1 : optionsLength (proposalAt id s1) = N.of_nat (length opts))
    by (by rewrite Hnew).
  destruct (run_metadata E calls s1 id ltac:(lia)) as [_ Hm].
  assert (Hlen : optionsLength (proposalAt id s) = N.of_nat (length opts)).
  { unfold optionsLength. unfold metadata in Hm. fold s in Hm.
    assert (options (proposalAt id s) = options (proposalAt id s1)) as -> by congruence.
    exact Hlen1. }
  assert (Hclosed : closed (proposalAt id s) = closed (proposalAt id s0)).
  { unfold s. rewrite run_wide_never_closed by lia. by rewrite Hnew. }
  pose proof (closeProposal_wide tx id s ltac:(lia)) as Hclose.
  split; [exact Hlen|]. split; [exact Hclosed|]. split; [|split].
  - rewrite Hclose. destruct (closed _); [by eexists _, _|].
    destruct (negb _); by eexists _, _.
  - intros Hfresh Hdue. rewrite Hclose, Hclosed, Hfresh.
    by destruct (N.leb_spec (closes (proposalAt id s)) (block_timestamp tx)); [|lia].
  - unfold transact. rewrite Hclose. destruct (closed _); [done|].
    by destruct (negb _).
Qed.

Lemma wide_proposal_never_closes_witness :
  closed (proposalAt 1
            (run Scenario.deployed [(Scenario.at_ 500, CloseProposal 1)]
               Scenario.manyOptions))
  = closed (proposalAt 1 Scenario.genesis).
Proof.
  refine (proj1 (proj2
            (wide_proposal_never_closes Scenario.deployed (Scenario.at_ 100) "Wide"
               "256 options" Simple (replicate 256 "o"%string) 300 Scenario.genesis 1
               Scenario.manyOptions [(Scenario.at_ 500, CloseProposal 1)]
               (Scenario.at_ 600) _ _))).
  - vm_compute. reflexivity.
  - vm_compute. discriminate.
Defined.

(** * Further properties of the code *)

(** ** sqrt *)

(** X1: for every [x] below the largest [uint256], [sqrt] returns the
    integer square root: the [y] with [y * y <= x < (y + 1) * (y + 1)]. *)
Theorem sqrt_is_floor_sqrt x :
  x < uint_max 256 ->
  exists y, sqrt x = Done y /\ y * y <= x /\ x < (y + 1) * (y + 1).
Proof.
  intros Hx. exists (N.sqrt x). split; [by apply sqrt_correct|].
  pose proof (N.sqrt_spec x (N.le_0_l x)) as H. cbv zeta in H.
  rewrite <- !N.add_1_r in H. exact H.
Qed.

Lemma sqrt_is_floor_sqrt_witness :
  exists y, sqrt 1000000 = Done y /\ y * y <= 1000000 /\ 1000000 < (y + 1) * (y + 1).
Proof.
  exact (sqrt_is_floor_sqrt 1000000 ltac:(vm_compute; reflexivity)).
Defined.

(** ** _toString *)

Lemma uint_max_256_large : 2 ^ 64 <= uint_max 256.
Proof. vm_compute. discriminate. Qed.

Lemma parseDecimal_snoc s c :
  parseDecimal (s ++ [c]) = 10 * parseDecimal s + digitValue c.
Proof. unfold parseDecimal. by rewrite fold_left_app. Qed.

Lemma digit_char d :
  d < 10 ->
  let c := ascii_of_N (to_uint 8 (48 + d)) in
  digitValue c = d /\ isDigit c = true.
Proof.
  intros Hd c. assert (Hc : N_of_ascii c = 48 + d).
  { unfold c, to_uint. rewrite N.mod_small by (change (2 ^ 8) with 256; lia).
    apply N_ascii_embedding. lia. }
  unfold digitValue, isDigit. rewrite Hc. split; [lia|].
  apply andb_true_iff. split; apply N.leb_le; lia.
Qed.

(** The two loops of [_toString] on the same value: the first counts the
    digits that the second writes, last digit first, into the slice of
    the buffer that ends at [digits]. *)
Lemma toString_loops value :
  exists ds : list ascii,
    N.of_nat (length ds) <= value /\
    (value <> 0 -> exists c rest, ds = c :: rest /\ digitValue c <> 0) /\
    (value = 0 -> ds = []) /\
    parseDecimal ds = value /\
    forallb isDigit ds = true /\
    (forall digits, digits + N.of_nat (length ds) <= uint_max 256 ->
       countDigits value digits = Done (digits + N.of_nat (length ds))) /\
    (forall pre mid suf, length mid = length ds ->
       fillDigits value (N.of_nat (length pre + length ds)) (pre ++ mid ++ suf)
       = Done (pre ++ ds ++ suf)).
Proof.
  induction value as [value IH] using (well_founded_induction N.lt_wf_0).
  destruct (N.eq_dec value 0) as [->|Hne].
  - exists []. repeat split; try done.
    + intros digits _. rewrite countDigits_eq. cbn. f_equal. lia.
    + intros pre mid suf Hmid. destruct mid; [|done].
      rewrite fillDigits_eq. reflexivity.
  - assert (Hlt : value / 10 < value) by (apply N.div_lt; lia).
    destruct (IH _ Hlt) as (ds & Hlen & Hhead & Hnil & Hparse & Hdig & Hcount & Hfill).
    pose proof (N.mod_upper_bound value 10 ltac:(lia)) as Hmod.
    pose proof (N.div_mod value 10 ltac:(lia)) as Hdm.
    destruct (digit_char (value mod 10) Hmod) as [Hval Hisd].
    set (c := ascii_of_N (to_uint 8 (48 + value mod 10))) in *.
    exists (ds ++ [c]). rewrite length_app. cbn [length].
    split; [|split; [|split; [|split; [|split; [|split]]]]].
    + assert (value / 10 < value) by done.
      assert (value / 10 + 1 <= value); lia.
    + intros _. destruct (N.eq_dec (value / 10) 0) as [Hz|Hnz].
      * rewrite (Hnil Hz). exists c, []. split; [done|]. rewrite Hval. lia.
      * destruct (Hhead Hnz) as (c0 & rest & -> & Hc0). by exists c0, (rest ++ [c]).
    + done.
    + rewrite parseDecimal_snoc, Hparse, Hval. lia.
    + rewrite forallb_app, Hdig. cbn. by rewrite Hisd.
    + intros digits Hfit. rewrite countDigits_eq.
      destruct (N.eqb_spec value 0) as [|_]; [done|]. cbn [negb].
      unfold checked_add, fits.
      destruct (N.leb_spec (digits + 1) (uint_max 256)) as [_|]; [|lia]. cbn.
      rewrite Hcount by lia. f_equal. lia.
    + intros pre mid suf Hmid. rewrite fillDigits_eq.
      destruct (N.eqb_spec value 0) as [|_]; [done|]. cbn [negb].
      unfold checked_sub. destruct (N.leb_spec 1 (N.of_nat (length pre + (length ds + 1))))
        as [_|]; [|lia]. cbn.
      unfold checked_add, fits.
      destruct (N.leb_spec (48 + value mod 10) (uint_max 256)) as [_|Hbig];
        [|pose proof uint_max_256_large; change (2 ^ 64) with 18446744073709551616 in *; lia].
      cbn. fold c.
      destruct mid as [|x mid' _] using rev_ind; [cbn in Hmid; lia|].
      rewrite length_app in Hmid. cbn in Hmid.
      replace (N.of_nat (length pre + (length ds + 1)) - 1)
        with (N.of_nat (length pre + length ds)) by lia.
      unfold store. rewrite !length_app. cbn [length].
      destruct (N.ltb_spec (N.of_nat (length pre + length ds))
                  (N.of_nat (length pre + (length mid' + 1 + length suf)))) as [_|]; [|lia].
      cbn. rewrite Nat2N.id.
      replace (<[(length pre + length ds)%nat := c]> (pre ++ (mid' ++ [x]) ++ suf))
        with (pre ++ mid' ++ ([c] ++ suf)).
      * rewrite Hfill by lia. by rewrite <- !app_assoc.
      * rewrite insert_app_r_alt by lia. f_equal.
        rewrite <- app_assoc. rewrite insert_app_r_alt by lia.
        replace (length pre + length ds - length pre - length mid')%nat with 0%nat by lia.
        reflexivity.
Qed.

(** X2: for every [uint256] value [_toString] returns a string of
    decimal digits whose value is the input (reading the string back
    gives the number), without a leading zero, and "0" for zero. *)
Theorem _toString_decimal_digits value :
  value <= uint_max 256 ->
  exists ds : list ascii,
    _toString value = Done (string_of_list_ascii ds) /\
    parseDecimal ds = value /\
    forallb isDigit ds = true /\
    (value = 0 -> ds = ["0"%char]) /\
    (value <> 0 -> exists c rest, ds = c :: rest /\ digitValue c <> 0).
Proof.
  intros Hmax. unfold _toString. destruct (N.eqb_spec value 0) as [->|Hne].
  - exists ["0"%char]. repeat split; done.
  - destruct (toString_loops value)
      as (ds & Hlen & Hhead & _ & Hparse & Hdig & Hcount & Hfill).
    exists ds. rewrite (Hcount 0) by lia. cbn.
    specialize (Hfill [] (replicate (length ds) zero) [] (length_replicate _ _)).
    rewrite app_nil_r in Hfill. cbn [app length Nat.add] in Hfill.
    rewrite N.add_0_l, Nat2N.id, Hfill, app_nil_r. cbn.
    repeat split; done.
Qed.

Lemma _toString_decimal_digits_witness :
  exists ds : list ascii,
    _toString 255 = Done (string_of_list_ascii ds) /\
    parseDecimal ds = 255 /\
    forallb isDigit ds = true /\
    (255 = 0 -> ds = ["0"%char]) /\
    (255 <> 0 -> exists c rest, ds = c :: rest /\ digitValue c <> 0).
Proof.
  exact (_toString_decimal_digits 255 ltac:(vm_compute; discriminate)).
Defined.

(** X3: [_toString] is injective on [uint256]: two different option
    indices never give the same signal string. *)
Theorem _toString_injective value value' :
  value <= uint_max 256 -> value' <= uint_max 256 ->
  value <> value' -> _toString value <> _toString value'.
Proof.
  intros Hv Hv' Hne Heq. apply Hne. clear Hne.
  assert (Hround : forall v, v <= uint_max 256 ->
            exists ds, _toString v = Done (string_of_list_ascii ds) /\ parseDecimal ds = v).
  { intros v Hmax. unfold _toString. destruct (N.eqb_spec v 0) as [->|Hne].
    - by exists ["0"%char].
    - destruct (toString_loops v) as (ds & Hlen & _ & _ & Hparse & _ & Hcount & Hfill).
      exists ds. rewrite (Hcount 0) by lia. cbn.
      specialize (Hfill [] (replicate (length ds) zero) [] (length_replicate _ _)).
      rewrite app_nil_r in Hfill. cbn [app length Nat.add] in Hfill.
      by rewrite N.add_0_l, Nat2N.id, Hfill, app_nil_r. }
  destruct (Hround value Hv) as (ds & Hs & <-).
  destruct (Hround value' Hv') as (ds' & Hs' & <-).
  rewrite Hs, Hs' in Heq. injection Heq as Heq.
  apply (f_equal list_ascii_of_string) in Heq.
  rewrite !list_ascii_of_string_of_list_ascii in Heq. by rewrite Heq.
Qed.

Lemma _toString_injective_witness : _toString 1 <> _toString 10.
Proof.
  exact (_toString_injective 1 10 ltac:(vm_compute; discriminate)
           ltac:(vm_compute; discriminate) ltac:(discriminate)).
Defined.

(** ** createProposal *)

(** X4: [createProposal] fails before any write when the caller is not
    the owner (the owner check comes first) or, for the owner, when fewer
    than two options are given. *)
Theorem createProposal_rejects tx title description mode opts duration s :
  owner s <> msg_sender tx \/ N.of_nat (length opts) < 2 ->
  createProposal tx title description mode opts duration s =
    Fail (if owner s =? msg_sender tx then InvalidOptions
          else OwnableUnauthorizedAccount (msg_sender tx)) s.
Proof.
  intros H. unfold createProposal, onlyOwner. munfold. cbn.
  destruct (N.eqb_spec (owner s) (msg_sender tx)) as [Hown|Hown]; cbn; [|reflexivity].
  destruct H as [|Hlen]; [done|].
  destruct (N.leb_spec 2 (N.of_nat (length opts))); [lia|reflexivity].
Qed.

Lemma createProposal_rejects_witness :
  createProposal (Scenario.at_ 100) "T" "D" Simple ["only"]%string 300 Scenario.genesis =
    Fail (if owner Scenario.genesis =? msg_sender (Scenario.at_ 100) then InvalidOptions
          else OwnableUnauthorizedAccount (msg_sender (Scenario.at_ 100))) Scenario.genesis.
Proof.
  apply (createProposal_rejects (Scenario.at_ 100) "T" "D" Simple ["only"]%string 300
           Scenario.genesis).
  right. vm_compute. reflexivity.
Defined.

(** X5: called by the owner with two options or more, [createProposal]
    succeeds (as long as the counter and the 64-bit closing time stay in
    range), returns [proposalCount + 1] and makes it the new count,
    stores title, description, mode, the options in order and
    [closes = uint64(block.timestamp) + duration], leaves the tallies,
    nullifiers and [closed] flag of that slot and every other proposal as
    they were, keeps the root, and logs one ProposalCreated event. *)
Theorem createProposal_creates tx title description mode opts duration s :
  owner s = msg_sender tx ->
  2 <= N.of_nat (length opts) -> N.of_nat (length opts) <= uint_max 256 ->
  proposalCount s + 1 <= uint_max 256 ->
  to_uint 64 (block_timestamp tx) + duration <= uint_max 64 ->
  let id := proposalCount s + 1 in
  let closesAt := to_uint 64 (block_timestamp tx) + duration in
  exists s',
    createProposal tx title description mode opts duration s = Ok id s' /\
    proposalCount s' = id /\
    metadata (proposalAt id s') = (title, description, mode, opts, closesAt) /\
    tally (proposalAt id s') = tally (proposalAt id s) /\
    nullifiers (proposalAt id s') = nullifiers (proposalAt id s) /\
    closed (proposalAt id s') = closed (proposalAt id s) /\
    (forall id', id' <> id -> proposalAt id' s' = proposalAt id' s) /\
    memberMerkleRoot s' = memberMerkleRoot s /\
    events s' = events s ++ [ProposalCreated id mode title closesAt].
Proof.
  intros Hown Hmin Hmax Hcount Hcloses. cbv zeta.
  destruct (createProposal_succeeds tx title description mode opts duration s
              Hown Hmin Hmax Hcount Hcloses) as [s' Hok].
  exists s'. split; [exact Hok|].
  apply createProposal_ok in Hok as (_&_&_&Hc&_&Hr&He&Hother&Hnew).
  rewrite Hnew. repeat split; done.
Qed.

Lemma createProposal_creates_witness :
  exists s',
    createProposal (Scenario.at_ 100) "T" "D" Quadratic ["a"; "b"; "c"]%string 50
      Scenario.yesNo = Ok (proposalCount Scenario.yesNo + 1) s' /\
    proposalCount s' = proposalCount Scenario.yesNo + 1 /\
    metadata (proposalAt (proposalCount Scenario.yesNo + 1) s') =
      ("T"%string, "D"%string, Quadratic, ["a"; "b"; "c"]%string,
       to_uint 64 (block_timestamp (Scenario.at_ 100)) + 50) /\
    tally (proposalAt (proposalCount Scenario.yesNo + 1) s') =
      tally (proposalAt (proposalCount Scenario.yesNo + 1) Scenario.yesNo) /\
    nullifiers (proposalAt (proposalCount Scenario.yesNo + 1) s') =
      nullifiers (proposalAt (proposalCount Scenario.yesNo + 1) Scenario.yesNo) /\
    closed (proposalAt (proposalCount Scenario.yesNo + 1) s') =
      closed (proposalAt (proposalCount Scenario.yesNo + 1) Scenario.yesNo) /\
    (forall id', id' <> proposalCount Scenario.yesNo + 1 ->
                 proposalAt id' s' = proposalAt id' Scenario.yesNo) /\
    memberMerkleRoot s' = memberMerkleRoot Scenario.yesNo /\
    events s' = events Scenario.yesNo ++
      [ProposalCreated (proposalCount Scenario.yesNo + 1) Quadratic "T"
         (to_uint 64 (block_timestamp (Scenario.at_ 100)) + 50)].
Proof.
  exact (createProposal_creates (Scenario.at_ 100) "T" "D" Quadratic
           ["a"; "b"; "c"]%string 50 Scenario.yesNo
           ltac:(vm_compute; reflexivity) ltac:(vm_compute; discriminate)
           ltac:(vm_compute; discriminate) ltac:(vm_compute; discriminate)
           ltac:(vm_compute; discriminate)).
Defined.

(** X6: once a proposal exists (its id is at most the proposal count),
    no sequence of calls changes its title, description, mode, options or
    closing time, and the proposal count never decreases. *)
Theorem proposal_metadata_immutable E calls s id :
  id <= proposalCount s ->
  proposalCount s <= proposalCount (run E calls s) /\
  metadata (proposalAt id (run E calls s)) = metadata (proposalAt id s).
Proof.
  intros Hid. split.
  - apply (run_metadata E calls s (proposalCount s)). lia.
  - by apply run_metadata.
Qed.

Lemma proposal_metadata_immutable_witness :
  proposalCount Scenario.yesNo <=
    proposalCount (run Scenario.deployed
                     [(Scenario.at_ 200, Vote 1 1 (Scenario.signalOf 1) 5 Scenario.root0 []);
                      (Scenario.at_ 400, CloseProposal 1)] Scenario.yesNo) /\
  metadata (proposalAt 1
              (run Scenario.deployed
                 [(Scenario.at_ 200, Vote 1 1 (Scenario.signalOf 1) 5 Scenario.root0 []);
                  (Scenario.at_ 400, CloseProposal 1)] Scenario.yesNo))
  = metadata (proposalAt 1 Scenario.yesNo).
Proof.
  exact (proposal_metadata_immutable Scenario.deployed
           [(Scenario.at_ 200, Vote 1 1 (Scenario.signalOf 1) 5 Scenario.root0 []);
            (Scenario.at_ 400, CloseProposal 1)] Scenario.yesNo 1
           ltac:(vm_compute; discriminate)).
Defined.

(** ** Bookkeeping invariants *)

Lemma loggedWeight_snoc id log e :
  loggedWeight id (log ++ [e]) =
  loggedWeight id log +
  match e with
  | VoteCast id' _ _ weight => if id' =? id then weight else 0
  | _ => 0
  end.
Proof.
  induction log as [|e' log IH]; cbn.
  - destruct e as [| | |id' ? ? w|]; try reflexivity; destruct (id' =? id); lia.
  - fold (loggedWeight id (log ++ [e])). fold (loggedWeight id log). rewrite IH.
    destruct e' as [| | |id' ? ? w|]; try reflexivity; destruct (id' =? id); lia.
Qed.

Lemma castCount_snoc id log e :
  castCount id (log ++ [e]) =
  (castCount id log +
   match e with
   | VoteCast id' _ _ _ => if (id' =? id)%N then 1 else 0
   | _ => 0
   end)%nat.
Proof.
  induction log as [|e' log IH]; cbn.
  - destruct e as [| | |id' ? ? w|]; try reflexivity; by destruct (id' =? id).
  - fold (castCount id (log ++ [e])). fold (castCount id log). rewrite IH.
    destruct e' as [| | |id' ? ? w|]; try reflexivity; by destruct (id' =? id).
Qed.

Lemma map_sum_insert (m : gmap N N) k v :
  map_fold (fun _ x acc => x + acc) 0 (<[k := v]> m)
  = v + map_fold (fun _ x acc => x + acc) 0 (delete k m).
Proof.
  rewrite <- insert_delete_eq.
  apply (map_fold_insert_L (fun _ x acc => x + acc) 0 k v (delete k m)).
  - intros. lia.
  - apply lookup_delete_eq.
Qed.

Lemma map_sum_delete (m : gmap N N) k :
  map_fold (fun _ x acc => x + acc) 0 m
  = default 0 (m !! k) + map_fold (fun _ x acc => x + acc) 0 (delete k m).
Proof.
  destruct (m !! k) as [x|] eqn:Hk; cbn.
  - apply (map_fold_delete_L (fun _ x acc => x + acc) 0 k x m); [intros; lia|done].
  - by rewrite delete_id.
Qed.

Lemma blank_closes p : blank p -> metadata p = metadata emptyProposal /\
                                  tally p = ∅ /\ nullifiers p = ∅.
Proof. intros ->. done. Qed.

Lemma consistent_constructor tx root : consistent (constructor tx root).
Proof.
  repeat split.
  - intros id i v. rewrite proposalAt_constructor. cbn. by rewrite lookup_empty.
  - intros id n b. rewrite proposalAt_constructor. cbn. by rewrite lookup_empty.
Qed.

Lemma effect_consistent E s s' : effect E s s' -> consistent s -> consistent s'.
Proof.
  intros [|tx newRoot Hown|tx title description mode opts duration id0 s1 Hc
          |tx id0 winner Hc Ht Hw|tx id0 option signalHash n0 merkleRoot weight Ht Ho Hn Hw]
         (Hblank & Hrange & Htrue & Hsize & Hsum).
  - done.
  - repeat split; try done.
    + intros id. cbn [events set_events]. rewrite castCount_snoc. cbn.
      rewrite proposalAt_set_events. change (proposalAt id (set_memberMerkleRoot newRoot s))
        with (proposalAt id s). rewrite Hsize. lia.
    + intros id. cbn [events set_events]. rewrite loggedWeight_snoc, N.add_0_r.
      apply Hsum.
  - apply createProposal_ok in Hc as (_&_&->&Hcount&_&_&He&Hother&Hnew).
    destruct (blank_closes _ (Hblank (proposalCount s + 1) ltac:(lia))) as (_&Htal&Hnul).
    assert (Hsame : forall id,
              tally (proposalAt id s1) = tally (proposalAt id s) /\
              nullifiers (proposalAt id s1) = nullifiers (proposalAt id s)).
    { intros id. destruct (N.eq_dec id (proposalCount s + 1)) as [->|Hne].
      - by rewrite Hnew.
      - by rewrite Hother. }
    repeat split.
    + intros id Hid. rewrite Hother by lia. apply Hblank. lia.
    + intros id i v. destruct (N.eq_dec id (proposalCount s + 1)) as [->|Hne].
      * rewrite (proj1 (Hsame _)), Htal, lookup_empty. done.
      * rewrite Hother by done. apply Hrange.
    + intros id n b. rewrite (proj2 (Hsame id)). apply Htrue.
    + intros id. rewrite (proj2 (Hsame id)), He, castCount_snoc. cbn.
      rewrite Hsize. lia.
    + intros id. unfold tallySum. rewrite (proj1 (Hsame id)), He, loggedWeight_snoc.
      rewrite N.add_0_r. apply Hsum.
  - assert (Hp : forall id,
              proposalAt id (set_events (events s ++ [ProposalClosed id0 winner])
                               (updateProposal id0 (set_closed true) s))
              = if decide (id = id0) then set_closed true (proposalAt id s)
                else proposalAt id s).
    { intros id. rewrite proposalAt_set_events. destruct (decide (id = id0)) as [->|Hne].
      - by rewrite proposalAt_update_eq.
      - by rewrite proposalAt_update_ne by congruence. }
    repeat split.
    + intros id Hid. rewrite Hp. destruct (decide (id = id0)) as [->|]; [|by apply Hblank].
      pose proof (Hblank id0 Hid) as Hb. unfold blank in *. rewrite Hb. reflexivity.
    + intros id i v. rewrite Hp. destruct (decide (id = id0)) as [->|]; apply Hrange.
    + intros id n b. rewrite Hp. destruct (decide (id = id0)) as [->|]; apply Htrue.
    + intros id. rewrite Hp. cbn [events set_events]. rewrite castCount_snoc. cbn.
      change (events (updateProposal id0 (set_closed true) s)) with (events s).
      destruct (decide (id = id0)) as [->|]; cbn; rewrite Hsize; lia.
    + intros id. rewrite Hp. cbn [events set_events]. rewrite loggedWeight_snoc, N.add_0_r.
      change (events (updateProposal id0 (set_closed true) s)) with (events s).
      destruct (decide (id = id0)) as [->|]; apply Hsum.
  - assert (Hborn : id0 <= proposalCount s).
    { destruct (N.le_gt_cases id0 (proposalCount s)) as [|Hgt]; [done|].
      destruct (blank_closes _ (Hblank id0 Hgt)) as (Hm&_&_).
      unfold metadata in Hm. injection Hm as _ _ _ _ Hcl. rewrite Hcl in Ht. cbn in Ht. lia. }
    assert (Hev : events (recordVote id0 option signalHash n0 merkleRoot weight s)
                  = (events s ++ [ProofVerified id0 merkleRoot n0 signalHash])
                    ++ [VoteCast id0 option n0 weight]) by reflexivity.
    assert (Hfresh : nullifiers (proposalAt id0 s) !! n0 = None).
    { unfold nullifierUsed in Hn. destruct (nullifiers (proposalAt id0 s) !! n0) as [b|] eqn:Hb;
        [|done]. rewrite (Htrue _ _ _ Hb) in Hn. discriminate. }
    repeat split.
    + intros id Hid. change (proposalCount s < id) in Hid. rewrite proposalAt_recordVote.
      destruct (decide (id = id0)) as [->|]; [lia|by apply Hblank].
    + intros id i v. rewrite proposalAt_recordVote.
      destruct (decide (id = id0)) as [->|]; [|apply Hrange].
      cbv zeta. cbn [tally set_tally]. unfold optionsLength. cbn [options set_tally set_nullifiers].
      destruct (N.eq_dec i option) as [->|Hne].
      * intros _. exact Ho.
      * rewrite lookup_insert_ne by congruence. apply Hrange.
    + intros id n b. rewrite proposalAt_recordVote.
      destruct (decide (id = id0)) as [->|]; [|apply Htrue].
      cbv zeta. cbn [nullifiers set_tally set_nullifiers].
      destruct (N.eq_dec n n0) as [->|Hne].
      * rewrite lookup_insert_eq. congruence.
      * rewrite lookup_insert_ne by congruence. apply Htrue.
    + intros id. rewrite proposalAt_recordVote, Hev, !castCount_snoc. cbn.
      destruct (decide (id = id0)) as [->|Hne].
      * cbv zeta. cbn [nullifiers set_tally set_nullifiers].
        rewrite map_size_insert_None by done. rewrite N.eqb_refl, Hsize. lia.
      * destruct (N.eqb_spec id0 id) as [|_]; [congruence|]. rewrite Hsize. lia.
    + intros id. rewrite proposalAt_recordVote, Hev, !loggedWeight_snoc, N.add_0_r.
      destruct (decide (id = id0)) as [->|Hne].
      * cbv zeta. rewrite N.eqb_refl. unfold tallySum. cbn [tally set_tally set_nullifiers].
        unfold tallyOf. cbn [tally set_nullifiers].
        rewrite map_sum_insert. unfold wrapping_add.
        rewrite N.add_comm, N.Div0.add_mod_idemp_r.
        rewrite <- (N.Div0.add_mod_idemp_l (loggedWeight id0 (events s))), <- Hsum.
        rewrite N.Div0.add_mod_idemp_l. unfold tallySum.
        rewrite (map_sum_delete (tally (proposalAt id0 s)) option). f_equal. lia.
      * destruct (N.eqb_spec id0 id) as [|_]; [congruence|]. rewrite N.add_0_r. apply Hsum.
Qed.

Lemma reachable_consistent E s : reachable E s -> consistent s.
Proof.
  intros (tx0 & root & calls & ->).
  apply (run_ind E consistent); [apply effect_consistent|apply consistent_constructor].
Qed.

Lemma genesis_reachable E : reachable E Scenario.genesis.
Proof. by exists (Scenario.at_ 100), Scenario.root0, []. Qed.

Lemma yesNo_reachable : reachable Scenario.deployed Scenario.yesNo.
Proof.
  exists (Scenario.at_ 100), Scenario.root0,
    [(Scenario.at_ 100,
      CreateProposal "Budget" "Approve the budget" Simple ["Yes"; "No"]%string 300)].
  vm_compute. reflexivity.
Qed.

Lemma fiveFive_reachable : reachable Scenario.deployed Scenario.fiveFive.
Proof.
  exists (Scenario.at_ 100), Scenario.root0,
    ((Scenario.at_ 100,
      CreateProposal "Budget" "Approve the budget" Simple ["Yes"; "No"]%string 300)
     :: map (fun n => (Scenario.at_ 200, Vote 1 1 (Scenario.signalOf 1) n Scenario.root0 []))
            [11; 12; 13; 14; 15]
     ++ map (fun n => (Scenario.at_ 200, Vote 1 0 (Scenario.signalOf 0) n Scenario.root0 []))
            [21; 22; 23; 24; 25]).
  vm_compute. reflexivity.
Qed.

(** X7: in every state the contract can reach, a proposal that
    [createProposal] has just made has no tally entry and no registered
    nullifier: every option starts at zero and every nullifier is fresh. *)
Theorem new_proposal_starts_empty E tx title description mode opts duration s id s' :
  reachable E s ->
  createProposal tx title description mode opts duration s = Ok id s' ->
  tally (proposalAt id s') = ∅ /\ nullifiers (proposalAt id s') = ∅ /\
  (forall i, tallyOf (proposalAt id s') i = 0) /\
  (forall n, nullifierUsed (proposalAt id s') n = false).
Proof.
  intros Hreach Hc. apply reachable_consistent in Hreach as (Hblank & _).
  apply createProposal_ok in Hc as (_&_&->&_&_&_&_&_&Hnew).
  destruct (blank_closes _ (Hblank (proposalCount s + 1) ltac:(lia))) as (_&Htal&Hnul).
  assert (Ht : tally (proposalAt (proposalCount s + 1) s') = ∅) by (by rewrite Hnew).
  assert (Hn : nullifiers (proposalAt (proposalCount s + 1) s') = ∅) by (by rewrite Hnew).
  repeat split; [done|done| |].
  - intros i. unfold tallyOf. by rewrite Ht, lookup_empty.
  - intros n. unfold nullifierUsed. by rewrite Hn, lookup_empty.
Qed.

Lemma new_proposal_starts_empty_witness :
  tally (proposalAt 1 Scenario.yesNo) = ∅ /\ nullifiers (proposalAt 1 Scenario.yesNo) = ∅ /\
  (forall i, tallyOf (proposalAt 1 Scenario.yesNo) i = 0) /\
  (forall n, nullifierUsed (proposalAt 1 Scenario.yesNo) n = false).
Proof.
  apply (new_proposal_starts_empty Scenario.deployed (Scenario.at_ 100) "Budget"
           "Approve the budget" Simple ["Yes"; "No"]%string 300 Scenario.genesis 1
           Scenario.yesNo).
  - apply genesis_reachable.
  - vm_compute. reflexivity.
Defined.

(** X8: in every reachable state a proposal has tally entries for
    option indices only: a non-zero tally sits at an index below
    [options.length]. *)
Theorem tally_entries_in_option_range E s id i :
  reachable E s ->
  tallyOf (proposalAt id s) i <> 0 ->
  i < optionsLength (proposalAt id s).
Proof.
  intros Hreach Hnz. apply reachable_consistent in Hreach as (_ & Hrange & _).
  unfold tallyOf in Hnz. destruct (tally (proposalAt id s) !! i) as [v|] eqn:Hv; [|done].
  eapply Hrange, Hv.
Qed.

Lemma tally_entries_in_option_range_witness :
  1 < optionsLength (proposalAt 1 Scenario.fiveFive).
Proof.
  apply (tally_entries_in_option_range Scenario.deployed Scenario.fiveFive 1 1).
  - apply fiveFive_reachable.
  - vm_compute. discriminate.
Defined.

(** X9: exact accounting. In every reachable state the sum of the
    tallies of a proposal equals, modulo 2^256 (tallies are added
    unchecked), the sum of the weights of the VoteCast events logged for
    it: no accepted vote is lost or counted twice. *)
Theorem tally_sum_matches_log E s id :
  reachable E s ->
  tallySum (proposalAt id s) mod 2 ^ 256 = loggedWeight id (events s) mod 2 ^ 256.
Proof.
  intros Hreach. apply reachable_consistent in Hreach as (_&_&_&_&Hsum). apply Hsum.
Qed.

Lemma tally_sum_matches_log_witness :
  tallySum (proposalAt 1 Scenario.fiveFive) mod 2 ^ 256
  = loggedWeight 1 (events Scenario.fiveFive) mod 2 ^ 256.
Proof.
  exact (tally_sum_matches_log Scenario.deployed Scenario.fiveFive 1 fiveFive_reachable).
Defined.

(** X10: one nullifier per accepted vote. In every reachable state the
    number of nullifiers registered for a proposal is the number of
    VoteCast events logged for it, and a registered nullifier is never
    unset. *)
Theorem one_nullifier_per_vote E s id :
  reachable E s ->
  size (nullifiers (proposalAt id s)) = castCount id (events s) /\
  (forall n, nullifierUsed (proposalAt id s) n = true <->
             is_Some (nullifiers (proposalAt id s) !! n)).
Proof.
  intros Hreach. apply reachable_consistent in Hreach as (_&_&Htrue&Hsize&_).
  split; [apply Hsize|]. intros n. unfold nullifierUsed.
  destruct (nullifiers (proposalAt id s) !! n) as [b|] eqn:Hb; cbn.
  - rewrite (Htrue _ _ _ Hb). split; [by eexists|done].
  - split; [done|]. by intros [? ?].
Qed.

Lemma one_nullifier_per_vote_witness :
  size (nullifiers (proposalAt 1 Scenario.fiveFive)) = castCount 1 (events Scenario.fiveFive) /\
  (forall n, nullifierUsed (proposalAt 1 Scenario.fiveFive) n = true <->
             is_Some (nullifiers (proposalAt 1 Scenario.fiveFive) !! n)).
Proof.
  exact (one_nullifier_per_vote Scenario.deployed Scenario.fiveFive 1 fiveFive_reachable).
Defined.

(** X11: an id above the proposal count is treated as an expired
    proposal without options, not reported as missing: in every reachable
    state a vote on it fails with "voting is closed" and [tallies] with
    "oob", whatever the other arguments, and nothing is written. *)
Theorem unknown_id_fails E s id tx option signalHash nullifierHash merkleRoot proof start n :
  reachable E s -> proposalCount s < id ->
  vote E tx id option signalHash nullifierHash merkleRoot proof s
    = Fail ProposalClosedError s /\
  tallies id start n s = Fail OutOfBounds s.
Proof.
  intros Hreach Hid. apply reachable_consistent in Hreach as (Hblank & _).
  destruct (blank_closes _ (Hblank id Hid)) as (Hm&_&_).
  unfold metadata in Hm. injection Hm as _ _ _ Hopts Hcl. cbn in Hopts, Hcl. split.
  - rewrite vote_eq. cbv zeta. rewrite Hcl.
    by destruct (N.ltb_spec (block_timestamp tx) 0); [lia|].
  - apply tallies_truncated_length. unfold optionsLength. rewrite Hopts. cbn.
    unfold to_uint. rewrite N.Div0.mod_0_l. lia.
Qed.

Lemma unknown_id_fails_witness :
  vote Scenario.deployed (Scenario.at_ 200) 2 0 (Scenario.signalOf 0) 9 Scenario.root0 []
       Scenario.yesNo
    = Fail ProposalClosedError Scenario.yesNo /\
  tallies 2 0 0 Scenario.yesNo = Fail OutOfBounds Scenario.yesNo.
Proof.
  exact (unknown_id_fails Scenario.deployed Scenario.yesNo 2 (Scenario.at_ 200) 0
           (Scenario.signalOf 0) 9 Scenario.root0 [] 0 0 yesNo_reachable
           ltac:(vm_compute; reflexivity)).
Defined.

(** ** closeProposal *)

(** X12: [closeProposal] fails with "already closed" on a closed
    proposal, whatever the time, and with "not expired" on an unclosed one
    before its closing time; in both cases before any write. *)
Theorem closeProposal_rejects tx id s :
  closed (proposalAt id s) = true \/ block_timestamp tx < closes (proposalAt id s) ->
  closeProposal tx id s =
    Fail (if closed (proposalAt id s) then AlreadyClosed else TooEarly) s.
Proof.
  intros H. rewrite closeProposal_eq. cbv zeta.
  destruct (closed (proposalAt id s)); [reflexivity|].
  destruct H as [|Hearly]; [done|].
  by destruct (N.leb_spec (closes (proposalAt id s)) (block_timestamp tx)); [lia|].
Qed.

Lemma closeProposal_rejects_witness :
  closeProposal (Scenario.at_ 399) 1 Scenario.voted =
    Fail (if closed (proposalAt 1 Scenario.voted) then AlreadyClosed else TooEarly)
         Scenario.voted.
Proof.
  apply (closeProposal_rejects (Scenario.at_ 399) 1 Scenario.voted).
  right. vm_compute. reflexivity.
Defined.



Lemma effect_closed E s s' id :
  effect E s s' -> closed (proposalAt id s) = true -> closed (proposalAt id s') = true.
Proof.
  intros [|tx newRoot Hown|tx title description mode opts duration id0 s1 Hc
          |tx id0 winner Hc Ht Hw|tx id0 option signalHash n0 merkleRoot weight Ht Ho Hn Hw]
         Hcl.
  - done.
  - done.
  - apply createProposal_ok in Hc as (_&_&_&_&_&_&_&Hother&Hnew).
    destruct (N.eq_dec id id0) as [->|Hne].
    + rewrite Hnew. exact Hcl.
    + by rewrite Hother.
  - rewrite proposalAt_set_events. destruct (N.eq_dec id id0) as [->|Hne].
    + by rewrite proposalAt_update_eq.
    + by rewrite proposalAt_update_ne by congruence.
  - rewrite proposalAt_recordVote. by destruct (decide (id = id0)) as [->|].
Qed.

(** X14: closing is final. Once the [closed] flag of a proposal is set,
    no sequence of calls clears it (not even [createProposal] on that
    slot), and every later [closeProposal] fails with "already closed". *)
Theorem closed_is_permanent E calls s id tx :
  closed (proposalAt id s) = true ->
  closed (proposalAt id (run E calls s)) = true /\
  closeProposal tx id (run E calls s) = Fail AlreadyClosed (run E calls s).
Proof.
  intros Hcl.
  assert (H : closed (proposalAt id (run E calls s)) = true).
  { apply (run_ind E (fun s' => closed (proposalAt id s') = true)); [|done].
    intros s1 s2 Heff. exact (effect_closed E s1 s2 id Heff). }
  split; [exact H|]. rewrite closeProposal_eq. cbv zeta. by rewrite H.
Qed.

Lemma closed_is_permanent_witness :
  closed (proposalAt 1
            (run Scenario.deployed
               [(Scenario.at_ 500,
                 CreateProposal "Next" "Another" Simple ["a"; "b"]%string 10)]
               (transact (closeProposal (Scenario.at_ 400) 1) Scenario.voted))) = true /\
  closeProposal (Scenario.at_ 600) 1
    (run Scenario.deployed
       [(Scenario.at_ 500, CreateProposal "Next" "Another" Simple ["a"; "b"]%string 10)]
       (transact (closeProposal (Scenario.at_ 400) 1) Scenario.voted))
  = Fail AlreadyClosed
      (run Scenario.deployed
         [(Scenario.at_ 500, CreateProposal "Next" "Another" Simple ["a"; "b"]%string 10)]
         (transact (closeProposal (Scenario.at_ 400) 1) Scenario.voted)).
Proof.
  apply (closed_is_permanent Scenario.deployed
           [(Scenario.at_ 500, CreateProposal "Next" "Another" Simple ["a"; "b"]%string 10)]
           (transact (closeProposal (Scenario.at_ 400) 1) Scenario.voted) 1
           (Scenario.at_ 600)).
  vm_compute. reflexivity.
Defined.

(** X15: closing before creation. In a reachable state in which the
    slot of the next id to be assigned does not have its [closed] flag set
    yet, [closeProposal] on that id succeeds for any caller at any time
    (no existence check: the empty slot has closing time 0 and no options)
    and logs the sentinel winner; [createProposal] does not reset the
    flag, so the proposal created next under that id is closed from the
    start and [closeProposal] on it fails with "already closed". *)
Theorem close_before_create
    E s tx txc title description mode opts duration :
  reachable E s ->
  closed (proposalAt (proposalCount s + 1) s) = false ->
  let id := proposalCount s + 1 in
  exists s1,
    closeProposal tx id s = Ok () s1 /\
    events s1 = events s ++ [ProposalClosed id (uint_max 8)] /\
    forall id' s2,
      createProposal txc title description mode opts duration s1 = Ok id' s2 ->
      id' = id /\ closed (proposalAt id s2) = true /\
      metadata (proposalAt id s2)
        = (title, description, mode, opts,
           to_uint 64 (block_timestamp txc) + duration) /\
      forall tx', closeProposal tx' id s2 = Fail AlreadyClosed s2.
Proof.
  intros Hreach Hopen. cbv zeta.
  apply reachable_consistent in Hreach as (Hblank & _).
  destruct (blank_closes _ (Hblank (proposalCount s + 1) ltac:(lia))) as (Hm&_&_).
  unfold metadata in Hm. injection Hm as _ _ _ Hopts Hcl. cbn in Hopts, Hcl.
  rewrite closeProposal_eq. cbv zeta. rewrite Hopen, Hcl.
  destruct (N.leb_spec 0 (block_timestamp tx)) as [_|]; [|lia]. cbn [negb].
  rewrite winnerLoop_eq. unfold optionsLength. cbn [options set_closed].
  rewrite Hopts. cbn [length N.of_nat N.ltb N.compare].
  eexists. split; [reflexivity|]. split; [reflexivity|].
  intros id' s2 Hc. apply createProposal_ok in Hc as (_&_&Hid&_&_&_&_&_&Hnew).
  cbn in Hid. subst id'. split; [done|].
  rewrite proposalAt_set_events, proposalAt_update_eq in Hnew.
  assert (Hborn : closed (proposalAt (proposalCount s + 1) s2) = true) by (by rewrite Hnew).
  split; [exact Hborn|]. split; [by rewrite Hnew|].
  intros tx'. rewrite closeProposal_eq. cbv zeta. by rewrite Hborn.
Qed.

Lemma close_before_create_witness :
  exists s1,
    closeProposal (Scenario.at_ 50) (proposalCount Scenario.genesis + 1) Scenario.genesis
      = Ok () s1 /\
    events s1 = events Scenario.genesis
                ++ [ProposalClosed (proposalCount Scenario.genesis + 1) (uint_max 8)] /\
    forall id' s2,
      createProposal (Scenario.at_ 100) "Budget" "Approve the budget" Simple
        ["Yes"; "No"]%string 300 s1 = Ok id' s2 ->
      id' = proposalCount Scenario.genesis + 1 /\
      closed (proposalAt (proposalCount Scenario.genesis + 1) s2) = true /\
      metadata (proposalAt (proposalCount Scenario.genesis + 1) s2)
        = ("Budget"%string, "Approve the budget"%string, Simple, ["Yes"; "No"]%string,
           to_uint 64 (block_timestamp (Scenario.at_ 100)) + 300) /\
      forall tx', closeProposal tx' (proposalCount Scenario.genesis + 1) s2
                  = Fail AlreadyClosed s2.
Proof.
  apply (close_before_create Scenario.deployed Scenario.genesis (Scenario.at_ 50)
           (Scenario.at_ 100) "Budget" "Approve the budget" Simple ["Yes"; "No"]%string 300).
  - apply genesis_reachable.
  - vm_compute. reflexivity.
Defined.

(** ** vote *)

(** X16: [vote] never reads the [closed] flag: setting or clearing the
    flag of the proposal voted on does not change the result of the call.
    A proposal closed before its closing time (see X15) still takes
    votes. *)
Theorem vote_ignores_closed_flag
    E tx id option signalHash nullifierHash merkleRoot proof s b :
  result (vote E tx id option signalHash nullifierHash merkleRoot proof)
         (updateProposal id (set_closed b) s)
  = result (vote E tx id option signalHash nullifierHash merkleRoot proof) s.
Proof.
  unfold result. rewrite !vote_eq. cbv zeta. rewrite proposalAt_update_eq.
  change (closes (set_closed b (proposalAt id s))) with (closes (proposalAt id s)).
  change (optionsLength (set_closed b (proposalAt id s)))
    with (optionsLength (proposalAt id s)).
  change (nullifierUsed (set_closed b (proposalAt id s)) nullifierHash)
    with (nullifierUsed (proposalAt id s) nullifierHash).
  change (memberMerkleRoot (updateProposal id (set_closed b) s)) with (memberMerkleRoot s).
  change (voteWeight E tx (set_closed b (proposalAt id s)))
    with (voteWeight E tx (proposalAt id s)).
  repeat match goal with
         | |- context [if ?c then _ else _] => destruct c
         | |- context [match ?c with Done _ => _ | Abort _ => _ end] => destruct c
         end; reflexivity.
Qed.

(** X17: an accepted vote writes its own ballot only: it registers its
    nullifier and no other, leaves the metadata and the [closed] flag of
    its proposal, every other proposal, the root and the proposal count as
    they were, and appends ProofVerified and VoteCast to the log. *)
Theorem vote_touches_only_its_ballot
    E tx id option signalHash nullifierHash merkleRoot proof s s' :
  vote E tx id option signalHash nullifierHash merkleRoot proof s = Ok () s' ->
  nullifierUsed (proposalAt id s') nullifierHash = true /\
  (forall n, n <> nullifierHash ->
     nullifierUsed (proposalAt id s') n = nullifierUsed (proposalAt id s) n) /\
  metadata (proposalAt id s') = metadata (proposalAt id s) /\
  closed (proposalAt id s') = closed (proposalAt id s) /\
  (forall id', id' <> id -> proposalAt id' s' = proposalAt id' s) /\
  memberMerkleRoot s' = memberMerkleRoot s /\
  proposalCount s' = proposalCount s /\
  exists weight,
    events s' = events s ++ [ProofVerified id merkleRoot nullifierHash signalHash;
                             VoteCast id option nullifierHash weight].
Proof.
  intros Hok. apply vote_ok in Hok as (_&_&_&_&_&_&weight&_&->).
  assert (Hp := proposalAt_recordVote id id option signalHash nullifierHash merkleRoot
                  weight s).
  destruct (decide (id = id)) as [_|]; [|done]. cbv zeta in Hp.
  split; [|split; [|split; [|split; [|split; [|split; [|split]]]]]].
  - rewrite Hp. unfold nullifierUsed. cbn. by rewrite lookup_insert_eq.
  - intros n Hne. rewrite Hp. unfold nullifierUsed. cbn.
    by rewrite lookup_insert_ne by congruence.
  - by rewrite Hp.
  - by rewrite Hp.
  - intros id' Hne. rewrite proposalAt_recordVote. by destruct (decide (id' = id)).
  - reflexivity.
  - reflexivity.
  - exists weight. unfold recordVote, registerNullifier. cbn. by rewrite <- app_assoc.
Qed.

Lemma vote_touches_only_its_ballot_witness :
  nullifierUsed (proposalAt 1 Scenario.voted) 5 = true /\
  (forall n, n <> 5 ->
     nullifierUsed (proposalAt 1 Scenario.voted) n
     = nullifierUsed (proposalAt 1 Scenario.yesNo) n) /\
  metadata (proposalAt 1 Scenario.voted) = metadata (proposalAt 1 Scenario.yesNo) /\
  closed (proposalAt 1 Scenario.voted) = closed (proposalAt 1 Scenario.yesNo) /\
  (forall id', id' <> 1 -> proposalAt id' Scenario.voted = proposalAt id' Scenario.yesNo) /\
  memberMerkleRoot Scenario.voted = memberMerkleRoot Scenario.yesNo /\
  proposalCount Scenario.voted = proposalCount Scenario.yesNo /\
  exists weight,
    events Scenario.voted
    = events Scenario.yesNo ++ [ProofVerified 1 Scenario.root0 5 (Scenario.signalOf 1);
                                VoteCast 1 1 5 weight].
Proof.
  apply (vote_touches_only_its_ballot Scenario.deployed (Scenario.at_ 200) 1 1
           (Scenario.signalOf 1) 5 Scenario.root0 [] Scenario.yesNo Scenario.voted).
  vm_compute. reflexivity.
Defined.

(** X18: the weight rule. An accepted vote adds to the tally of its
    option, modulo 2^256, the weight 1 when the proposal is Simple or no
    governance token is set, and the integer square root of the sender's
    token balance when the proposal is Quadratic and a token is set; no
    other tally of any proposal changes. *)
Theorem accepted_vote_adds_weight
    E tx id option signalHash nullifierHash merkleRoot proof s s' :
  vote E tx id option signalHash nullifierHash merkleRoot proof s = Ok () s' ->
  let p := proposalAt id s in
  let weight :=
    if isQuadratic (mode p) && negb (govToken E =? 0)
    then N.sqrt (govToken_getVotes E (msg_sender tx))
    else 1 in
  tallyOf (proposalAt id s') option = (tallyOf p option + weight) mod 2 ^ 256 /\
  (forall i, i <> option -> tallyOf (proposalAt id s') i = tallyOf p i) /\
  (forall id' i, id' <> id -> tallyOf (proposalAt id' s') i = tallyOf (proposalAt id' s) i).
Proof. intros Hok. exact (vote_weight_added _ _ _ _ _ _ _ _ _ _ Hok). Qed.

Lemma accepted_vote_adds_weight_witness :
  tallyOf (proposalAt 1 Scenario.voted) 1
  = (tallyOf (proposalAt 1 Scenario.yesNo) 1 +
     (if isQuadratic (mode (proposalAt 1 Scenario.yesNo))
         && negb (govToken Scenario.deployed =? 0)
      then N.sqrt (govToken_getVotes Scenario.deployed (msg_sender (Scenario.at_ 200)))
      else 1)) mod 2 ^ 256 /\
  (forall i, i <> 1 -> tallyOf (proposalAt 1 Scenario.voted) i
                       = tallyOf (proposalAt 1 Scenario.yesNo) i) /\
  (forall id' i, id' <> 1 -> tallyOf (proposalAt id' Scenario.voted) i
                             = tallyOf (proposalAt id' Scenario.yesNo) i).
Proof.
  apply (accepted_vote_adds_weight Scenario.deployed (Scenario.at_ 200) 1 1
           (Scenario.signalOf 1) 5 Scenario.root0 [] Scenario.yesNo Scenario.voted).
  vm_compute. reflexivity.
Defined.

(** ** updateMemberRoot *)



(** X20: the root changes only through [updateMemberRoot] called by the
    owner: if a transaction changes the membership root, it is an
    [updateMemberRoot] call sent by the owner; [createProposal], [closeProposal] and [vote] never write
    the root, and a call of [updateMemberRoot] by anyone else is
    reverted. *)
Theorem root_changes_only_by_owner E tx c s :
  memberMerkleRoot (transact (dispatch E tx c) s) <> memberMerkleRoot s ->
  owner s = msg_sender tx /\
  c = UpdateMemberRoot (memberMerkleRoot (transact (dispatch E tx c) s)).
Proof.
  unfold transact. destruct c as [newRoot|title description mode opts duration|id|
                                  id option signalHash nullifierHash merkleRoot proof];
    cbn [dispatch].
  - rewrite updateMemberRoot_eq.
    destruct (N.eqb_spec (owner s) (msg_sender tx)); [|done]. by intros _.
  - munfold.
    destruct (createProposal tx title description mode opts duration s) as [id s'|] eqn:H;
      [|done].
    apply createProposal_ok in H as (_&_&_&_&_&Hr&_). by rewrite Hr.
  - rewrite closeProposal_eq. cbv zeta.
    destruct (closed _); [done|]. destruct (negb _); [done|].
    by destruct (winnerLoop _ _ _ _).
  - destruct (vote E tx id option signalHash nullifierHash merkleRoot proof s)
      as [[] s'|] eqn:H; [|done].
    apply vote_ok in H as (_&_&_&_&_&_&weight&_&->). done.
Qed.

Lemma root_changes_only_by_owner_witness :
  owner Scenario.yesNo = msg_sender (Scenario.at_ 150) /\
  UpdateMemberRoot 88
  = UpdateMemberRoot
      (memberMerkleRoot
         (transact (dispatch Scenario.deployed (Scenario.at_ 150) (UpdateMemberRoot 88))
                   Scenario.yesNo)).
Proof.
  apply (root_changes_only_by_owner Scenario.deployed (Scenario.at_ 150)
           (UpdateMemberRoot 88) Scenario.yesNo).
  vm_compute. discriminate.
Defined.

(** ** tallies *)

(** X21: for a proposal with fewer than 2^16 options and arguments
    with [start + n < 2^16], [tallies] fails with "oob" exactly when
    [start >= options.length]; otherwise it returns the tallies of the
    options [start], [start + 1], ... up to the end of the list when [n]
    is zero or [start + n] exceeds [options.length], and exactly the [n]
    tallies from [start] on otherwise. *)
Theorem tallies_returns_range id start n s :
  optionsLength (proposalAt id s) <= uint_max 16 ->
  start + n <= uint_max 16 ->
  let p := proposalAt id s in
  result (tallies id start n) s =
    if optionsLength p <=? start then Abort OutOfBounds
    else if (n =? 0) || (optionsLength p <? start + n)
         then Done (tallySlice p start (optionsLength p))
         else Done (tallySlice p start (start + n)).
Proof. intros Hlen Hsum. by apply tallies_in_range. Qed.

Lemma tallies_returns_range_witness :
  result (tallies 1 1 1) Scenario.fiveFive =
    if optionsLength (proposalAt 1 Scenario.fiveFive) <=? 1 then Abort OutOfBounds
    else if (1 =? 0) || (optionsLength (proposalAt 1 Scenario.fiveFive) <? 1 + 1)
         then Done (tallySlice (proposalAt 1 Scenario.fiveFive) 1
                      (optionsLength (proposalAt 1 Scenario.fiveFive)))
         else Done (tallySlice (proposalAt 1 Scenario.fiveFive) 1 (1 + 1)).
Proof.
  apply (tallies_returns_range 1 1 1 Scenario.fiveFive).
  - vm_compute. discriminate.
  - vm_compute. discriminate.
Defined.

(** X22: a Quadratic vote by an account without governance tokens is
    accepted with weight 0: it passes every check, consumes its nullifier
    and logs VoteCast with weight 0, and no tally changes. *)
Theorem zero_balance_vote_counts_nothing
    E tx id option signalHash nullifierHash merkleRoot proof s :
  option <= uint_max 8 ->
  block_timestamp tx < closes (proposalAt id s) ->
  option < optionsLength (proposalAt id s) ->
  nullifierUsed (proposalAt id s) nullifierHash = false ->
  merkleRoot = memberMerkleRoot s ->
  signalHash = expectedSignal E option ->
  verifier_verifyProof E proof [merkleRoot; nullifierHash; signalHash; id] = true ->
  isQuadratic (mode (proposalAt id s)) = true ->
  govToken E <> 0 ->
  govToken_getVotes E (msg_sender tx) = 0 ->
  tallyOf (proposalAt id s) option <= uint_max 256 ->
  exists s',
    vote E tx id option signalHash nullifierHash merkleRoot proof s = Ok () s' /\
    (forall id' i, tallyOf (proposalAt id' s') i = tallyOf (proposalAt id' s) i) /\
    nullifierUsed (proposalAt id s') nullifierHash = true /\
    events s' = events s ++ [ProofVerified id merkleRoot nullifierHash signalHash;
                             VoteCast id option nullifierHash 0].
Proof.
  intros Hu8 Hopen Hopt Hfresh Hroot Hsig Hver Hq Htok Hbal Hrange.
  rewrite (vote_past_checks E tx id option signalHash nullifierHash merkleRoot proof s)
    by assumption.
  rewrite Hver. unfold voteWeight. rewrite Hq, Hbal.
  destruct (N.eqb_spec (govToken E) 0) as [|_]; [done|]. cbn.
  eexists. split; [reflexivity|]. split; [|split].
  - intros id' i. rewrite proposalAt_recordVote.
    destruct (decide (id' = id)) as [->|]; [|done].
    cbv zeta. unfold tallyOf at 1. cbn [tally set_tally set_nullifiers].
    destruct (N.eq_dec i option) as [->|Hne].
    + rewrite lookup_insert_eq. cbn. unfold wrapping_add, tallyOf at 1.
      cbn [tally set_nullifiers]. fold (tallyOf (proposalAt id s) option).
      rewrite N.add_0_r. apply N.mod_small.
      assert (uint_max 256 < 2 ^ 256) by (vm_compute; reflexivity). lia.
    + by rewrite lookup_insert_ne by congruence.
  - rewrite proposalAt_recordVote. destruct (decide (id = id)) as [_|]; [|done].
    cbv zeta. unfold nullifierUsed. cbn. by rewrite lookup_insert_eq.
  - unfold recordVote, registerNullifier. cbn. by rewrite <- app_assoc.
Qed.

Lemma zero_balance_vote_counts_nothing_witness :
  exists s',
    vote emptyWallets (Scenario.at_ 200) 1 1 (Scenario.signalOf 1) 5 Scenario.root0 []
         Scenario.quadratic = Ok () s' /\
    (forall id' i, tallyOf (proposalAt id' s') i
                   = tallyOf (proposalAt id' Scenario.quadratic) i) /\
    nullifierUsed (proposalAt 1 s') 5 = true /\
    events s' = events Scenario.quadratic
                ++ [ProofVerified 1 Scenario.root0 5 (Scenario.signalOf 1);
                    VoteCast 1 1 5 0].
Proof.
  apply (zero_balance_vote_counts_nothing emptyWallets (Scenario.at_ 200) 1 1
           (Scenario.signalOf 1) 5 Scenario.root0 [] Scenario.quadratic).
  - vm_compute. discriminate.
  - vm_compute. reflexivity.
  - vm_compute. reflexivity.
  - vm_compute. reflexivity.
  - vm_compute. reflexivity.
  - vm_compute. reflexivity.
  - vm_compute. reflexivity.
  - vm_compute. reflexivity.
  - vm_compute. discriminate.
  - vm_compute. reflexivity.
  - vm_compute. discriminate.
Defined.
